(** * Album generator: caption synchronizer and album renderer

    A shallow embedding of [sync_captions.py] and [generate_album.py],
    together with the parts of the Python runtime the two scripts call
    ([str] methods, [pathlib] name splitting, [list.sort], the [csv]
    module in its default [excel] dialect, [utf-8-sig] files).

    Text is carried as [string]: the sequence of bytes of its UTF-8
    encoding.  Every operation the scripts perform acts on ASCII
    characters only (markup characters, CSV delimiters, line ends, the
    dot of a file name), and on UTF-8 text such operations agree with
    their code-point versions; byte-wise lexicographic order is the
    code-point order Python uses to compare [str] values.  White space
    is recognised by the encodings of the characters that
    [str.isspace] accepts.  One builtin is embedded in its ASCII range:
    [str.lower], which in Python lower-cases the letters beyond ASCII
    as well. *)

From Stdlib Require Import Ascii String ZArith Lia Permutation Sorted.
From stdpp Require Import base option list sorting gmap strings pretty.

Local Open Scope Z_scope.

(** ** Characters with a role in the two scripts *)

Definition LF : ascii := "010"%char.
Definition CR : ascii := "013"%char.
Definition DQ : ascii := "034"%char.
Definition APOS : ascii := "039"%char.
Definition COMMA : ascii := ","%char.
Definition DOT : ascii := "."%char.

(** U+3000 IDEOGRAPHIC SPACE, in its three bytes. *)
Definition IDEOGRAPHIC_SPACE : string :=
  String "227" (String "128" (String "128" "")).

(** One-character strings used when assembling templates. *)
Definition q : string := String DQ "".
Definition nl : string := String LF "".
Definition crlf : string := String CR (String LF "").

(** ** Python builtins on [str] *)

Module Py.

Definition code (c : ascii) : Z := Z.of_nat (nat_of_ascii c).

(** [str.isspace] on one character, by the bytes of its encoding.
    In one byte: TAB, LF, VT, FF, CR, the four separators FS, GS, RS,
    US, and SPACE.  In two bytes: U+0085 and U+00A0.  In three bytes:
    U+1680, U+2000 to U+200A, U+2028, U+2029, U+202F, U+205F and
    U+3000. *)
Definition isspace1 (c : ascii) : bool :=
  ((9 <=? code c) && (code c <=? 13))
  || ((28 <=? code c) && (code c <=? 32)).

Definition isspace2 (c1 c2 : ascii) : bool :=
  (code c1 =? 194) && ((code c2 =? 133) || (code c2 =? 160)).

Definition isspace3 (c1 c2 c3 : ascii) : bool :=
  ((code c1 =? 225) && (code c2 =? 154) && (code c3 =? 128))
  || ((code c1 =? 226) && (code c2 =? 128)
      && (((128 <=? code c3) && (code c3 <=? 138))
          || (code c3 =? 168) || (code c3 =? 169) || (code c3 =? 175)))
  || ((code c1 =? 226) && (code c2 =? 129) && (code c3 =? 159))
  || ((code c1 =? 227) && (code c2 =? 128) && (code c3 =? 128)).

(** The number of bytes of the white-space character that [s] starts
    with, [0] when it starts with none. *)
Definition space_width (s : string) : nat :=
  match s with
  | String c1 s1 =>
      if isspace1 c1 then 1%nat else
      match s1 with
      | String c2 s2 =>
          if isspace2 c1 c2 then 2%nat else
          match s2 with
          | String c3 _ => if isspace3 c1 c2 c3 then 3%nat else O
          | EmptyString => O
          end
      | EmptyString => O
      end
  | EmptyString => O
  end.

(** [str.lower] on one character: [A]..[Z] move to [a]..[z]. *)
Definition lower_char (c : ascii) : ascii :=
  if (65 <=? code c) && (code c <=? 90)
  then ascii_of_nat (nat_of_ascii c + 32)
  else c.

Fixpoint lower (s : string) : string :=
  match s with
  | EmptyString => EmptyString
  | String c s' => String (lower_char c) (lower s')
  end.

Definition len (s : string) : Z := Z.of_nat (String.length s).

(** [bool(s)]: a string is truthy when it is not empty. *)
Definition truthy (s : string) : bool :=
  match s with EmptyString => false | String _ _ => true end.

(** [s.lstrip()], [s.rstrip()] and [s.strip()] without argument:
    the white-space characters at the left end, at the right end, and
    at both ends are dropped.  A text ends with white space from the
    first place on from which all of it is white space. *)
Fixpoint lstrip (s : string) : string :=
  match s with
  | String c1 s1 =>
      if isspace1 c1 then lstrip s1 else
      match s1 with
      | String c2 s2 =>
          if isspace2 c1 c2 then lstrip s2 else
          match s2 with
          | String c3 s3 => if isspace3 c1 c2 c3 then lstrip s3 else s
          | EmptyString => s
          end
      | EmptyString => s
      end
  | EmptyString => s
  end.

Fixpoint rstrip (s : string) : string :=
  match s with
  | EmptyString => EmptyString
  | String c s' =>
      match lstrip s with
      | EmptyString => EmptyString
      | String _ _ => String c (rstrip s')
      end
  end.

Definition strip (s : string) : string := rstrip (lstrip s).

(** [s[n:]] and [s[:n]] for [0 <= n]. *)
Fixpoint drop (n : nat) (s : string) : string :=
  match n, s with
  | O, _ => s
  | S _, EmptyString => EmptyString
  | S k, String _ s' => drop k s'
  end.

Fixpoint take (n : nat) (s : string) : string :=
  match n, s with
  | O, _ => EmptyString
  | S _, EmptyString => EmptyString
  | S k, String c s' => String c (take k s')
  end.

(** [s.rfind(c)] for a one-character needle: the highest index of
    [c] in [s], or [-1]. *)
Fixpoint rfind (c : ascii) (s : string) : Z :=
  match s with
  | EmptyString => -1
  | String a s' =>
      let r := rfind c s' in
      if 0 <=? r then r + 1
      else if Ascii.eqb a c then 0 else -1
  end.

(** [s.replace(old, new)]: every non-overlapping occurrence of [old],
    scanning from the left, is replaced by [new].  [skip] counts the
    characters of an occurrence that are still to be passed over.
    With an empty [old], [new] is inserted before every character
    and at the end. *)
Fixpoint replace_from (old new : string) (skip : nat) (s : string) : string :=
  match s with
  | EmptyString => EmptyString
  | String c s' =>
      match skip with
      | S k => replace_from old new k s'
      | O =>
          if String.prefix old s
          then new +:+ replace_from old new (String.length old - 1) s'
          else String c (replace_from old new O s')
      end
  end.

Fixpoint intersperse (new : string) (s : string) : string :=
  match s with
  | EmptyString => new
  | String c s' => new +:+ String c (intersperse new s')
  end.

Definition replace (old new s : string) : string :=
  match old with
  | EmptyString => intersperse new s
  | String _ _ => replace_from old new O s
  end.

(** [sep.join(parts)]. *)
Fixpoint join (sep : string) (parts : list string) : string :=
  match parts with
  | [] => EmptyString
  | [p] => p
  | p :: ps => p +:+ sep +:+ join sep ps
  end.

(** [list.sort(key=key)] on strings: the stable sort by ascending
    key.  The stable ascending arrangement of a list is unique, so
    any stable algorithm computes the list that Python's does; this
    one inserts each element in front of the first later element
    whose key is not smaller. *)
Section sort.
Context {A : Type} (key : A → string).

Fixpoint insert_by_key (x : A) (l : list A) : list A :=
  match l with
  | [] => [x]
  | y :: l' =>
      if String.leb (key x) (key y) then x :: y :: l'
      else y :: insert_by_key x l'
  end.

Fixpoint sort_by_key (l : list A) : list A :=
  match l with
  | [] => []
  | x :: l' => insert_by_key x (sort_by_key l')
  end.

(** The order the sort arranges by: [x] may stand before [y]. *)
Definition key_le (x y : A) : Prop := String.le (key x) (key y).
End sort.

End Py.

(** ** [pathlib]: the suffix and the stem of a final path component

    [PurePath.suffix] and [PurePath.stem] as Python 3.9 to 3.12
    compute them from the name: the last dot counts only when it is
    neither the first nor the last character. *)

Module pathlib.

Definition has_suffix (name : string) : bool :=
  let i := Py.rfind DOT name in
  (0 <? i) && (i <? Py.len name - 1).

Definition suffix (name : string) : string :=
  if has_suffix name
  then Py.drop (Z.to_nat (Py.rfind DOT name)) name
  else EmptyString.

Definition stem (name : string) : string :=
  if has_suffix name
  then Py.take (Z.to_nat (Py.rfind DOT name)) name
  else name.

End pathlib.

(** ** The [csv] module, [excel] dialect

    Delimiter [,], quote character the double quote, double-quote
    escaping, line terminator CR LF, minimal quoting, no escape
    character, no initial-space skipping, not strict.  Not modelled:
    the limit on the size of one field (131072 characters unless
    raised), which makes the reader fail on longer fields. *)

Module csv.

(** *** Writer *)

Definition needs_quote (c : ascii) : bool :=
  Ascii.eqb c COMMA || Ascii.eqb c DQ || Ascii.eqb c CR || Ascii.eqb c LF.

Fixpoint any_char (p : ascii → bool) (s : string) : bool :=
  match s with
  | EmptyString => false
  | String c s' => p c || any_char p s'
  end.

(** The characters of a field, each quote character doubled. *)
Fixpoint double_quotes (s : string) : string :=
  match s with
  | EmptyString => EmptyString
  | String c s' =>
      if Ascii.eqb c DQ then String DQ (String DQ (double_quotes s'))
      else String c (double_quotes s')
  end.

(** [join_append]: one field as it is laid out in a record. *)
Definition join_append (f : string) : string :=
  if any_char needs_quote f then q +:+ double_quotes f +:+ q
  else f.

(** [writer.writerow]: the fields separated by the delimiter, a
    lone empty field written as two quote characters, then the line
    terminator. *)
Definition writerow (fs : list string) : string :=
  let rec := Py.join "," (join_append <$> fs) in
  (match fs, rec with
   | _ :: _, EmptyString => q +:+ q
   | _, _ => rec
   end) +:+ crlf.

Fixpoint writerows (rows : list (list string)) : string :=
  match rows with
  | [] => EmptyString
  | r :: rows' => writerow r +:+ writerows rows'
  end.

(** *** Reader *)

(** The parser states that the dialect can reach; the three escape
    states are entered on the escape character only. *)
Inductive ParserState :=
| START_RECORD
| START_FIELD
| IN_FIELD
| IN_QUOTED_FIELD
| QUOTE_IN_QUOTED_FIELD
| EAT_CRNL.

Record Reader := mkReader {
  state : ParserState;
  field : string;
  fields : list string
}.

(** What the parser is fed: a character of a line, or the end-of-line
    mark that follows the last character of every line. *)
Inductive input :=
| Char (c : ascii)
| EOL.

Definition parse_reset : Reader := mkReader START_RECORD "" [].

Definition set_state (st : ParserState) (r : Reader) : Reader :=
  mkReader st (field r) (fields r).

Definition parse_add_char (c : ascii) (r : Reader) : Reader :=
  mkReader (state r) (field r +:+ String c "") (fields r).

Definition parse_save_field (r : Reader) : Reader :=
  mkReader (state r) "" (fields r ++ [field r]).

Definition is_newline (c : ascii) : bool :=
  Ascii.eqb c LF || Ascii.eqb c CR.

(** The case [START_FIELD] of [parse_process_char], which the case
    [START_RECORD] falls through to. *)
Definition start_field (r : Reader) (c : input) : Reader :=
  match c with
  | EOL => set_state START_RECORD (parse_save_field r)
  | Char a =>
      if is_newline a then set_state EAT_CRNL (parse_save_field r)
      else if Ascii.eqb a DQ then set_state IN_QUOTED_FIELD r
      else if Ascii.eqb a COMMA then parse_save_field r
      else set_state IN_FIELD (parse_add_char a r)
  end.

(** [parse_process_char]; [None] is the exception [csv.Error]. *)
Definition parse_process_char (r : Reader) (c : input) : option Reader :=
  match state r with
  | START_RECORD =>
      match c with
      | EOL => Some r
      | Char a =>
          if is_newline a then Some (set_state EAT_CRNL r)
          else Some (start_field (set_state START_FIELD r) c)
      end
  | START_FIELD => Some (start_field r c)
  | IN_FIELD =>
      match c with
      | EOL => Some (set_state START_RECORD (parse_save_field r))
      | Char a =>
          if is_newline a then Some (set_state EAT_CRNL (parse_save_field r))
          else if Ascii.eqb a COMMA then Some (set_state START_FIELD (parse_save_field r))
          else Some (parse_add_char a r)
      end
  | IN_QUOTED_FIELD =>
      match c with
      | EOL => Some r
      | Char a =>
          if Ascii.eqb a DQ then Some (set_state QUOTE_IN_QUOTED_FIELD r)
          else Some (parse_add_char a r)
      end
  | QUOTE_IN_QUOTED_FIELD =>
      match c with
      | EOL => Some (set_state START_RECORD (parse_save_field r))
      | Char a =>
          if Ascii.eqb a DQ then Some (set_state IN_QUOTED_FIELD (parse_add_char a r))
          else if Ascii.eqb a COMMA then Some (set_state START_FIELD (parse_save_field r))
          else if is_newline a then Some (set_state EAT_CRNL (parse_save_field r))
          else Some (set_state IN_FIELD (parse_add_char a r))
      end
  | EAT_CRNL =>
      match c with
      | EOL => Some (set_state START_RECORD r)
      | Char a => if is_newline a then Some r else None
      end
  end.

(** The characters of one line, in order. *)
Fixpoint parse_chars (r : Reader) (line : string) : option Reader :=
  match line with
  | EmptyString => Some r
  | String c line' => r' ← parse_process_char r (Char c); parse_chars r' line'
  end.

Definition parse_line (r : Reader) (line : string) : option Reader :=
  r' ← parse_chars r line; parse_process_char r' EOL.

(** The end of the input in the middle of a record: what was read of
    the record is returned as it stands. *)
Definition at_end (r : Reader) : list (list string) :=
  if Py.truthy (field r)
     || match state r with IN_QUOTED_FIELD => true | _ => false end
  then [fields (parse_save_field r)]
  else [].

(** Iterating the reader to the end of its input: lines are parsed
    until one leaves the parser at the start of a record, the fields
    gathered so far make the record, and the parser is reset. *)
Fixpoint records (r : Reader) (lines : list string) : option (list (list string)) :=
  match lines with
  | [] => Some (at_end r)
  | l :: lines' =>
      r' ← parse_line r l;
      match state r' with
      | START_RECORD => (fields r' ::.) <$> records parse_reset lines'
      | _ => records r' lines'
      end
  end.

Definition reader (lines : list string) : option (list (list string)) :=
  records parse_reset lines.

(** *** DictReader

    A row as [row.get] sees it on a column name: the value of the
    column, or [None] for a column the record is too short for.
    Values beyond the last column are kept under the key [None],
    which no name reaches. *)
Fixpoint row_dict (d : gmap string (option string)) (fieldnames record : list string)
    : gmap string (option string) :=
  match fieldnames with
  | [] => d
  | k :: ks =>
      match record with
      | v :: vs => row_dict (<[k := Some v]> d) ks vs
      | [] => row_dict (<[k := None]> d) ks []
      end
  end.

Definition nonempty (record : list string) : bool :=
  match record with [] => false | _ :: _ => true end.

(** The first record gives the column names; empty records after it
    are skipped. *)
Definition DictReader (lines : list string) : option (list (gmap string (option string))) :=
  rs ← reader lines;
  match rs with
  | [] => Some []
  | fieldnames :: rs' => Some (row_dict ∅ fieldnames <$> filter (λ r, nonempty r = true) rs')
  end.

End csv.

(** ** Text files

    A file opened for reading with [newline=""] yields its lines with
    their ends kept, a line ending at LF, at CR LF, or at a CR that no
    LF follows.  [cur] is the part of the current line already seen. *)

Fixpoint lines_from (cur : string) (s : string) : list string :=
  match s with
  | EmptyString => match cur with EmptyString => [] | _ => [cur] end
  | String c s' =>
      if Ascii.eqb c LF then (cur +:+ String c "") :: lines_from "" s'
      else if Ascii.eqb c CR then
        match s' with
        | String c' s'' =>
            if Ascii.eqb c' LF then (cur +:+ crlf) :: lines_from "" s''
            else (cur +:+ String c "") :: lines_from "" s'
        | EmptyString => [cur +:+ String c ""]
        end
      else lines_from (cur +:+ String c "") s'
  end.

Definition readlines (s : string) : list string := lines_from "" s.

(** The encoding [utf-8-sig]: the writer puts the byte-order mark in
    front of the text, the reader drops one if the file starts with
    it.  Not modelled: bytes that are not UTF-8, on which the reader
    raises an error. *)
Definition BOM : string :=
  String (ascii_of_nat 239) (String (ascii_of_nat 187) (String (ascii_of_nat 191) "")).

Definition encode_utf_8_sig (text : string) : string := BOM +:+ text.

Definition decode_utf_8_sig (bytes : string) : string :=
  if String.prefix BOM bytes then Py.drop 3 bytes else bytes.

(** ** The file system and the process

    A directory is the list of its entries in the order in which
    [Path.iterdir] yields them, an order the platform chooses.  Each
    entry has its name and the answer of [Path.is_file], which is true
    for a regular file and for a link to one.  A file is the sequence
    of its bytes; [None] is a path at which nothing exists. *)

Record dir_entry := DirEntry { name : string; is_file : bool }.

#[global] Instance dir_entry_eq_dec : EqDecision dir_entry.
Proof. solve_decision. Defined.

Inductive node :=
| Absent
| NotDirectory
| Directory (entries : list dir_entry).

(** The three paths below the repository root: [album/images],
    [album/captions.csv] and [album/index.html]. *)
Record FS := mkFS {
  images_dir : node;
  captions_csv : option string;
  out_html : option string
}.

(** The same three paths as the strings that messages show; they
    depend on where the repository is checked out. *)
Record paths := mkPaths {
  IMAGES_DIR : string;
  CAPTIONS_CSV : string;
  OUT_HTML : string
}.

Inductive exception :=
| NotADirectoryError
| csv_Error.

(** How a run ends: normally, with the lines it printed; by
    [raise SystemExit(msg)]; or by an exception nobody catches. *)
Inductive outcome :=
| Finished (stdout : list string)
| SystemExit (msg : string)
| Raised (e : exception).

(** The exit status of the process: [SystemExit] with a message
    prints the message to standard error and exits with status 1, as
    does an uncaught exception after its traceback. *)
Definition exit_status (o : outcome) : Z :=
  match o with
  | Finished _ => 0
  | SystemExit _ => 1
  | Raised _ => 1
  end.

Definition stderr (o : outcome) : option string :=
  match o with
  | SystemExit msg => Some msg
  | _ => None
  end.

(** Both scripts define the same set of extensions. *)
Definition IMAGE_EXTS : list string :=
  [".jpg"; ".jpeg"; ".png"; ".webp"; ".gif"].

(** The condition of the list comprehension in both [list_images]. *)
Definition is_image (p : dir_entry) : bool :=
  is_file p && bool_decide (Py.lower (pathlib.suffix (name p)) ∈ IMAGE_EXTS).

(** A caption record [{"title": ..., "note": ...}]. *)
Record caption := Caption { title : string; note : string }.

(** [row.get(key) or ""] on a row of the [DictReader]. *)
Definition get_or_empty (row : gmap string (option string)) (key : string) : string :=
  match row !! key with
  | Some (Some v) => v
  | _ => EmptyString
  end.

(** The body of the loop over the rows, the same in [read_existing]
    and in [load_captions]. *)
Definition add_row (data : gmap string caption) (row : gmap string (option string))
    : gmap string caption :=
  let fn := Py.strip (get_or_empty row "filename") in
  if Py.truthy fn
  then <[fn := Caption (Py.strip (get_or_empty row "title"))
                       (Py.strip (get_or_empty row "note"))]> data
  else data.

(** ** sync_captions.py *)

Module sync_captions.

Definition list_images (images_dir : list dir_entry) : list string :=
  Py.sort_by_key Py.lower (name <$> filter (λ p, is_image p = true) images_dir).

(** [None] is a [csv.Error] raised while iterating the reader. *)
Definition read_existing (csv_path : option string) : option (gmap string caption) :=
  match csv_path with
  | None => Some ∅
  | Some bytes =>
      rows ← csv.DictReader (readlines (decode_utf_8_sig bytes));
      Some (foldl add_row ∅ rows)
  end.

(** A row [{"filename": ..., "title": ..., "note": ...}]. *)
Record row := Row { filename : string; row_title : string; row_note : string }.

Definition fieldnames : list string := ["filename"; "title"; "note"].

(** [DictWriter._dict_to_list]: the values in the order of [fieldnames]. *)
Definition dict_to_list (r : row) : list string :=
  [filename r; row_title r; row_note r].

(** The bytes of the file that [write_csv] leaves at [csv_path]. *)
Definition write_csv (rows : list row) : string :=
  encode_utf_8_sig
    (csv.writerow fieldnames +:+ csv.writerows (dict_to_list <$> rows)).

(** One turn of the loop of [main], on the pair of [rows] and [added]. *)
Definition merge_step (existing : gmap string caption)
    (acc : list row * nat) (fn : string) : list row * nat :=
  match existing !! fn with
  | Some c => (acc.1 ++ [Row fn (title c) (note c)], acc.2)
  | None => (acc.1 ++ [Row fn "" ""], S acc.2)
  end.

Definition merge (existing : gmap string caption) (images : list string)
    : list row * nat :=
  foldl (merge_step existing) ([], O) images.

Definition main (ps : paths) (fs : FS) : outcome * FS :=
  match images_dir fs with
  | Absent =>
      (SystemExit ("images ディレクトリが見つかりません: " +:+ IMAGES_DIR ps), fs)
  | NotDirectory => (Raised NotADirectoryError, fs)
  | Directory entries =>
      let images := list_images entries in
      match read_existing (captions_csv fs) with
      | None => (Raised csv_Error, fs)
      | Some existing =>
          let '(rows, added) := merge existing images in
          (Finished
             ["[OK] " +:+ CAPTIONS_CSV ps;
              "  images: " +:+ pretty (length images);
              "  new rows added (blank captions): " +:+ pretty added;
              "  Tip: captions.csv を Excel で編集 → generate_album.py を実行"],
           mkFS (images_dir fs) (Some (write_csv rows)) (out_html fs))
      end
  end.

End sync_captions.

(** ** generate_album.py *)

Module generate_album.

(** The loop is the one of [sync_captions.read_existing]. *)
Definition load_captions (csv_path : option string) : option (gmap string caption) :=
  match csv_path with
  | None => Some ∅
  | Some bytes =>
      rows ← csv.DictReader (readlines (decode_utf_8_sig bytes));
      Some (foldl add_row ∅ rows)
  end.

(** The entries themselves are sorted, by the lower-cased name. *)
Definition list_images (images_dir : list dir_entry) : list dir_entry :=
  Py.sort_by_key (λ p, Py.lower (name p)) (filter (λ p, is_image p = true) images_dir).

Definition escape_html (s : string) : string :=
  Py.replace q "&quot;"
    (Py.replace ">" "&gt;"
      (Py.replace "<" "&lt;"
        (Py.replace "&" "&amp;" s))).

Definition escape_attr (s : string) : string :=
  Py.replace (String APOS "") "&#39;" (escape_html s).

Definition placeholder : string := "（キャプション未入力）".

(** [filename] is the name of a directory entry, so [Path(filename)]
    has that name as its only component. *)
Definition figure_block (filename title note : string) : string :=
  let title_html := if Py.truthy title then title else placeholder in
  let note_html := if Py.truthy note then note else "" in
  let note_span :=
    if Py.truthy note_html
    then nl +:+ "        <span class=" +:+ q +:+ "cap-note" +:+ q +:+ ">"
            +:+ escape_html note_html +:+ "</span>"
    else "" in
  "    <figure>" +:+ nl +:+
  "      <a class=" +:+ q +:+ "thumb" +:+ q +:+ " href=" +:+ q +:+ "images/"
    +:+ escape_attr filename +:+ q +:+ ">" +:+ nl +:+
  "        <img src=" +:+ q +:+ "images/" +:+ escape_attr filename +:+ q
    +:+ " alt=" +:+ q +:+ escape_attr (pathlib.stem filename) +:+ q
    +:+ " loading=" +:+ q +:+ "lazy" +:+ q +:+ ">" +:+ nl +:+
  "      </a>" +:+ nl +:+
  "      <figcaption>" +:+ nl +:+
  "        <span class=" +:+ q +:+ "cap-title" +:+ q +:+ ">"
    +:+ escape_html title_html +:+ "</span>" +:+ note_span +:+ nl +:+
  "      </figcaption>" +:+ nl +:+
  "    </figure>" +:+ nl.

(** Of a list of lines, the text in which a line feed ends each. *)
Fixpoint unlines (ls : list string) : string :=
  match ls with
  | [] => EmptyString
  | l :: ls' => l +:+ nl +:+ unlines ls'
  end.

(** The page template, line by line. *)
Definition build_html (figures generated_iso : string) : string :=
  unlines
    ["<!doctype html>";
     "<html lang=" +:+ q +:+ "ja" +:+ q +:+ ">";
     "<head>";
     "  <meta charset=" +:+ q +:+ "utf-8" +:+ q +:+ " />";
     "  <meta name=" +:+ q +:+ "viewport" +:+ q +:+ " content=" +:+ q +:+ "width=device-width, initial-scale=1" +:+ q +:+ " />";
     "  <title>アルバム</title>";
     "  <style>";
     "    :root { --gap: 10px; --max: 1100px; }";
     "";
     "    body {";
     "      margin: 0;";
     "      font-family: system-ui, -apple-system, " +:+ q +:+ "Hiragino Sans" +:+ q +:+ ", " +:+ q +:+ "Noto Sans JP" +:+ q +:+ ", sans-serif;";
     "      background: #fff;";
     "      color: #111;";
     "    }";
     "";
     "    header {";
     "      max-width: var(--max);";
     "      margin: 24px auto 8px;";
     "      padding: 0 16px;";
     "    }";
     "    h1 { font-size: 1.2rem; margin: 0; font-weight: 600; }";
     "    p  { margin: 8px 0 0; font-size: 0.95rem; color: #444; }";
     "";
     "    .grid {";
     "      max-width: var(--max);";
     "      margin: 0 auto 32px;";
     "      padding: 0 16px;";
     "      display: grid;";
     "      grid-template-columns: repeat(3, 1fr);";
     "      gap: var(--gap);";
     "    }";
     "    @media (max-width: 900px) { .grid { grid-template-columns: repeat(2, 1fr); } }";
     "    @media (max-width: 520px) { .grid { grid-template-columns: 1fr; } }";
     "";
     "    figure {";
     "      margin: 0;";
     "      border-radius: 12px;";
     "      overflow: hidden;";
     "      background: #f4f4f4;";
     "      box-shadow: 0 1px 3px rgba(0,0,0,.08);";
     "    }";
     "";
     "    a.thumb {";
     "      display: block;";
     "      text-decoration: none;";
     "      color: inherit;";
     "    }";
     "";
     "    img {";
     "      width: 100%;";
     "      aspect-ratio: 4 / 3;";
     "      object-fit: cover;";
     "      display: block;";
     "      transform: scale(1);";
     "      transition: transform .12s ease-in-out;";
     "    }";
     "    a.thumb:hover img { transform: scale(1.02); }";
     "";
     "    figcaption {";
     "      padding: 8px 10px 10px;";
     "      font-size: 0.92rem;";
     "      line-height: 1.35;";
     "      background: #fff;";
     "      border-top: 1px solid rgba(0,0,0,.06);";
     "    }";
     "";
     "    .cap-title { font-weight: 600; display: block; }";
     "    .cap-note  { color: #444; font-size: 0.9em; display: block; margin-top: 2px; }";
     "";
     "    footer {";
     "      max-width: var(--max);";
     "      margin: 0 auto 40px;";
     "      padding: 0 16px;";
     "      color: #444;";
     "      font-size: 0.92rem;";
     "    }";
     "  </style>";
     "</head>";
     "";
     "<body>";
     "  <header>";
     "    <h1>アルバム</h1>";
     "    <p>サムネイルをクリックすると画像ファイルを表示します。</p>";
     "  </header>";
     "";
     "  <main class=" +:+ q +:+ "grid" +:+ q +:+ ">";
     Py.rstrip figures;
     "  </main>";
     "";
     "  <footer>";
     "    <hr>";
     "    生成日時：" +:+ generated_iso +:+ "<br>";
     "    最終更新（ブラウザ計算）：<span id=" +:+ q +:+ "last-updated" +:+ q +:+ "></span>";
     "  </footer>";
     "";
     "  <script>";
     "    const lastModified = new Date(document.lastModified);";
     "    const y = lastModified.getFullYear();";
     "    const m = String(lastModified.getMonth() + 1).padStart(2, '0');";
     "    const d = String(lastModified.getDate()).padStart(2, '0');";
     "    document.getElementById(" +:+ q +:+ "last-updated" +:+ q +:+ ").textContent = `${y}年${m}月${d}日`;";
     "  </script>";
     "</body>";
     "</html>"].

(** [cap.get("title", "")] and [cap.get("note", "")] on
    [captions.get(p.name, {})]. *)
Definition cap_title (cap : option caption) : string :=
  match cap with Some c => title c | None => EmptyString end.

Definition cap_note (cap : option caption) : string :=
  match cap with Some c => note c | None => EmptyString end.

Definition blocks (captions : gmap string caption) (images : list dir_entry) : list string :=
  (λ p, figure_block (name p) (cap_title (captions !! name p)) (cap_note (captions !! name p)))
    <$> images.

Fixpoint concat_str (parts : list string) : string :=
  match parts with
  | [] => EmptyString
  | p :: ps => p +:+ concat_str ps
  end.

(** [now] is the local time of the run, already formatted. *)
Definition main (ps : paths) (now : string) (fs : FS) : outcome * FS :=
  match images_dir fs with
  | Absent =>
      (SystemExit ("images ディレクトリが見つかりません: " +:+ IMAGES_DIR ps), fs)
  | NotDirectory =>
      match load_captions (captions_csv fs) with
      | None => (Raised csv_Error, fs)
      | Some _ => (Raised NotADirectoryError, fs)
      end
  | Directory entries =>
      match load_captions (captions_csv fs) with
      | None => (Raised csv_Error, fs)
      | Some captions =>
          let images := list_images entries in
          let html := build_html (concat_str (blocks captions images)) now in
          (Finished
             ["[OK] generated: " +:+ OUT_HTML ps +:+ "  (" +:+ pretty (length images)
                +:+ " images)"],
           mkFS (images_dir fs) (captions_csv fs) (Some html))
      end
  end.

End generate_album.

(** ** Vocabulary for the statements *)

(** [s.startswith(prefix)] and [needle in s]. *)
Fixpoint startswith (s prefix : string) : bool :=
  match prefix, s with
  | EmptyString, _ => true
  | String _ _, EmptyString => false
  | String b prefix', String a s' => Ascii.eqb a b && startswith s' prefix'
  end.

Fixpoint contains (needle s : string) : bool :=
  startswith s needle
  || match s with
     | EmptyString => false
     | String _ s' => contains needle s'
     end.

(** Every character [c] of [s] replaced by the string [f c]. *)
Fixpoint subst_chars (f : ascii → string) (s : string) : string :=
  match s with
  | EmptyString => EmptyString
  | String c s' => f c +:+ subst_chars f s'
  end.

(** The entity that stands for a character in element content, and in
    an attribute value. *)
Definition html_entity (c : ascii) : string :=
  if Ascii.eqb c "&" then "&amp;"
  else if Ascii.eqb c "<" then "&lt;"
  else if Ascii.eqb c ">" then "&gt;"
  else if Ascii.eqb c DQ then "&quot;"
  else String c "".

Definition attr_entity (c : ascii) : string :=
  if Ascii.eqb c APOS then "&#39;" else html_entity c.

(** The characters that escaping must keep out of element content,
    and out of an attribute value. *)
Definition markup_char (c : ascii) : bool :=
  Ascii.eqb c "<" || Ascii.eqb c ">" || Ascii.eqb c DQ.

Definition attr_markup_char (c : ascii) : bool :=
  markup_char c || Ascii.eqb c APOS.

(** The title element of a figure block around an escaped text, and
    the start tag of the note element. *)
Definition title_span (text : string) : string :=
  "<span class=" +:+ q +:+ "cap-title" +:+ q +:+ ">" +:+ text +:+ "</span>".

Definition note_tag : string :=
  "<span class=" +:+ q +:+ "cap-note" +:+ q +:+ ">".

(** The markup of a figure block around values that are already
    escaped: the link target, the image source, the alternative text,
    the text of the title element and, when there is a note element,
    its text. *)
Definition figure_layout (href src alt title_text : string) (note_text : option string)
    : string :=
  "    <figure>" +:+ nl +:+
  "      <a class=" +:+ q +:+ "thumb" +:+ q +:+ " href=" +:+ q +:+ "images/"
    +:+ href +:+ q +:+ ">" +:+ nl +:+
  "        <img src=" +:+ q +:+ "images/" +:+ src +:+ q
    +:+ " alt=" +:+ q +:+ alt +:+ q
    +:+ " loading=" +:+ q +:+ "lazy" +:+ q +:+ ">" +:+ nl +:+
  "      </a>" +:+ nl +:+
  "      <figcaption>" +:+ nl +:+
  "        " +:+ title_span title_text +:+
  match note_text with
  | Some text => nl +:+ "        " +:+ note_tag +:+ text +:+ "</span>"
  | None => EmptyString
  end +:+ nl +:+
  "      </figcaption>" +:+ nl +:+
  "    </figure>" +:+ nl.

(** ** The reader over an undivided text

    The same reading as [csv.reader (readlines text)], arranged as one
    pass over the characters of the text: the end-of-line mark is fed
    where a line of the text ends.  [inline] tells that the current
    line holds a character already. *)

(** Feeding the end-of-line mark: the reader to go on with and the
    record completed, if one is. *)
Definition end_of_line (r : csv.Reader) : option (csv.Reader * list (list string)) :=
  r' ← csv.parse_process_char r csv.EOL;
  Some (match csv.state r' with
        | csv.START_RECORD => (csv.parse_reset, [csv.fields r'])
        | _ => (r', [])
        end).

Fixpoint read_text (r : csv.Reader) (inline : bool) (s : string)
    : option (list (list string)) :=
  match s with
  | EmptyString =>
      if inline
      then ro ← end_of_line r; Some (ro.2 ++ csv.at_end ro.1)
      else Some (csv.at_end r)
  | String c s' =>
      r1 ← csv.parse_process_char r (csv.Char c);
      if Ascii.eqb c LF then
        ro ← end_of_line r1; (ro.2 ++.) <$> read_text ro.1 false s'
      else if Ascii.eqb c CR then
        match s' with
        | String c' s'' =>
            if Ascii.eqb c' LF then
              r2 ← csv.parse_process_char r1 (csv.Char c');
              ro ← end_of_line r2; (ro.2 ++.) <$> read_text ro.1 false s''
            else
              ro ← end_of_line r1; (ro.2 ++.) <$> read_text ro.1 false s'
        | EmptyString =>
            ro ← end_of_line r1; Some (ro.2 ++ csv.at_end ro.1)
        end
      else read_text r1 true s'
  end.

(** ** The mapping that a sequence of rows denotes

    Later rows win over earlier rows with the same file name. *)
Definition denoted (rows : list sync_captions.row) : gmap string caption :=
  foldl (λ m r, <[sync_captions.filename r :=
                   Caption (sync_captions.row_title r) (sync_captions.row_note r)]> m)
        ∅ rows.

(** A row with its three values trimmed, as the reading loop takes it. *)
Definition trim_row (r : sync_captions.row) : sync_captions.row :=
  sync_captions.Row (Py.strip (sync_captions.filename r))
                    (Py.strip (sync_captions.row_title r))
                    (Py.strip (sync_captions.row_note r)).


(** The row that the loop of [sync_captions.main] builds for a file
    name: the caption of the existing store when the name is a key of
    it, a blank caption otherwise. *)
Definition merged_row (existing : gmap string caption) (fn : string)
    : sync_captions.row :=
  sync_captions.Row fn
    (from_option title "" (existing !! fn))
    (from_option note "" (existing !! fn)).

(** What the reading loop lets into a store: trimmed, non-empty keys
    and trimmed values. *)
Definition clean_store (m : gmap string caption) : Prop :=
  map_Forall (λ k c, Py.strip k = k ∧ k ≠ ""
                     ∧ Py.strip (title c) = title c
                     ∧ Py.strip (note c) = note c) m.

(** ** Further vocabulary

    The number of places of [s] at which [needle] starts. *)
Fixpoint occurrences (needle s : string) : nat :=
  ((if startswith s needle then 1 else 0)
   + match s with
     | EmptyString => 0
     | String _ s' => occurrences needle s'
     end)%nat.

(** No end piece of [l] shorter than [needle] is the start of [needle]:
    no occurrence of [needle] begins in [l] and ends after it. *)
Fixpoint closed_for (needle l : string) : bool :=
  match l with
  | EmptyString => true
  | String _ l' =>
      negb ((String.length l <? String.length needle)%nat && startswith needle l)
      && closed_for needle l'
  end.


(** The fixed text of a figure block, between the places of the values:
    up to the link target, up to the image source, up to the
    alternative text, up to the text of the title, and from there on
    without a note, or up to the text of the note and after it. *)
Definition figure_text_1 : string :=
  "    <figure>" +:+ nl +:+
  "      <a class=" +:+ q +:+ "thumb" +:+ q +:+ " href=" +:+ q +:+ "images/".

Definition figure_text_2 : string :=
  q +:+ ">" +:+ nl +:+ "        <img src=" +:+ q +:+ "images/".

Definition figure_text_3 : string := q +:+ " alt=" +:+ q.

Definition figure_text_4 : string :=
  q +:+ " loading=" +:+ q +:+ "lazy" +:+ q +:+ ">" +:+ nl +:+
  "      </a>" +:+ nl +:+
  "      <figcaption>" +:+ nl +:+
  "        <span class=" +:+ q +:+ "cap-title" +:+ q +:+ ">".

Definition figure_text_end : string :=
  "</span>" +:+ nl +:+ "      </figcaption>" +:+ nl +:+ "    </figure>" +:+ nl.

Definition figure_text_note : string :=
  "</span>" +:+ nl +:+ "        <span class=" +:+ q +:+ "cap-note" +:+ q +:+ ">".





(** ** Proof tools

    Appending to a literal computes, and a search over the literal
    part of a text is run by computation. *)

#[local] Arguments String.append : simpl nomatch.


(** * Properties *)

(** ** The builtins on examples *)

Example suffix_upper : pathlib.suffix "a.JPG" = ".JPG".
Proof. reflexivity. Qed.
Example suffix_dotfile : pathlib.suffix ".jpg" = "".
Proof. reflexivity. Qed.
Example suffix_trailing_dot : pathlib.suffix "a.jpg." = "".
Proof. reflexivity. Qed.
Example stem_two_dots : pathlib.stem "a.b.png" = "a.b".
Proof. reflexivity. Qed.
Example strip_both_ends : Py.strip "  a b  " = "a b".
Proof. reflexivity. Qed.
Example replace_all : Py.replace "ab" "x" "abcabab" = "xcxx".
Proof. reflexivity. Qed.
Example replace_leftmost : Py.replace "aa" "x" "aaa" = "xa".
Proof. reflexivity. Qed.
Example replace_empty_old : Py.replace "" "-" "abc" = "-a-b-c-".
Proof. reflexivity. Qed.
Example sort_by_lower :
  Py.sort_by_key Py.lower ["b.jpg"; "A.jpg"; "a.jpg"; "C.png"]
  = ["A.jpg"; "a.jpg"; "b.jpg"; "C.png"].
Proof. reflexivity. Qed.
Example readlines_ends :
  readlines ("a" +:+ crlf +:+ "b" +:+ String CR "c" +:+ nl +:+ "d")
  = ["a" +:+ crlf; "b" +:+ String CR ""; "c" +:+ nl; "d"].
Proof. reflexivity. Qed.
Example writerow_quotes :
  csv.writerow ["a"; "b,c"; "d" +:+ q +:+ "e"; ""]
  = "a," +:+ q +:+ "b,c" +:+ q +:+ "," +:+ q +:+ "d" +:+ q +:+ q +:+ "e" +:+ q
    +:+ "," +:+ crlf.
Proof. reflexivity. Qed.
Example reader_unquoted_quote :
  csv.reader ["ab" +:+ q +:+ "c,d" +:+ nl]
  = Some [["ab" +:+ q +:+ "c"; "d"]].
Proof. reflexivity. Qed.

(** ** Strings *)

Lemma str_app_cons c (s t : string) : String c s +:+ t = String c (s +:+ t).
Proof. reflexivity. Qed.

Lemma str_app_nil_l (s : string) : "" +:+ s = s.
Proof. reflexivity. Qed.

Lemma str_app_nil_r (s : string) : s +:+ "" = s.
Proof. induction s as [|c s IH]; [done|]. by rewrite str_app_cons, IH. Qed.

Lemma str_app_assoc (s t u : string) : (s +:+ t) +:+ u = s +:+ (t +:+ u).
Proof. induction s as [|c s IH]; [done|]. by rewrite !str_app_cons, IH. Qed.

Lemma eqb_refl c : Ascii.eqb c c = true.
Proof. apply Ascii.eqb_refl. Qed.

(** ** Lower-casing keeps the dots where they are *)

Lemma lower_char_dot c : Ascii.eqb (Py.lower_char c) DOT = Ascii.eqb c DOT.
Proof. by destruct c as [[] [] [] [] [] [] [] []]. Qed.

Lemma lower_length s : String.length (Py.lower s) = String.length s.
Proof. induction s as [|c s IH]; simpl; congruence. Qed.

Lemma rfind_lower s : Py.rfind DOT (Py.lower s) = Py.rfind DOT s.
Proof.
  induction s as [|c s IH]; [done|].
  simpl. by rewrite IH, lower_char_dot.
Qed.

Lemma has_suffix_lower s : pathlib.has_suffix (Py.lower s) = pathlib.has_suffix s.
Proof. unfold pathlib.has_suffix, Py.len. by rewrite rfind_lower, lower_length. Qed.

Lemma image_ext_no_suffix e : e ∈ IMAGE_EXTS → pathlib.has_suffix e = false.
Proof.
  unfold IMAGE_EXTS. rewrite !elem_of_cons, elem_of_nil.
  intros [->|[->|[->|[->|[->|[]]]]]]; reflexivity.
Qed.

Lemma dot_ext_suffix name :
  Py.lower name ∈ IMAGE_EXTS → pathlib.suffix name = "".
Proof.
  intros H. unfold pathlib.suffix.
  by rewrite <-has_suffix_lower, (image_ext_no_suffix _ H).
Qed.

(** ** The stable sort *)

Section sort_facts.
Context {A : Type} (key : A → string).

#[local] Instance key_le_trans : Transitive (Py.key_le key).
Proof. intros x y z. unfold Py.key_le. apply transitivity. Qed.


Lemma insert_by_key_perm x l : Py.insert_by_key key x l ≡ₚ x :: l.
Proof.
  induction l as [|y l IH]; simpl; [done|].
  destruct (String.leb (key x) (key y)); [done|].
  rewrite IH. apply Permutation_swap.
Qed.

Lemma sort_by_key_perm l : Py.sort_by_key key l ≡ₚ l.
Proof.
  induction l as [|x l IH]; simpl; [done|].
  by rewrite insert_by_key_perm, IH.
Qed.



Lemma elem_of_sort_by_key x l : x ∈ Py.sort_by_key key l ↔ x ∈ l.
Proof. by rewrite sort_by_key_perm. Qed.

End sort_facts.

(** Sorting the names by their key is sorting the entries by the key
    of their name. *)
Lemma insert_by_key_fmap {A} (f : A → string) (key : string → string) x l :
  Py.insert_by_key key (f x) (f <$> l) = f <$> Py.insert_by_key (λ a, key (f a)) x l.
Proof.
  induction l as [|y l IH]; [done|].
  rewrite fmap_cons. cbn [Py.insert_by_key].
  destruct (String.leb (key (f x)) (key (f y))); [done|].
  by rewrite fmap_cons, IH.
Qed.

Lemma sort_by_key_fmap {A} (f : A → string) (key : string → string) l :
  Py.sort_by_key key (f <$> l) = f <$> Py.sort_by_key (λ a, key (f a)) l.
Proof.
  induction l as [|x l IH]; [done|].
  rewrite fmap_cons. cbn [Py.sort_by_key].
  by rewrite IH, insert_by_key_fmap.
Qed.

(** ** The Image Lister *)

(** The two scripts list the same names in the same order. *)
Lemma list_images_agree dir :
  name <$> generate_album.list_images dir = sync_captions.list_images dir.
Proof.
  unfold generate_album.list_images, sync_captions.list_images.
  by rewrite sort_by_key_fmap.
Qed.

Lemma is_image_spec p :
  is_image p = true ↔
  is_file p = true ∧ Py.lower (pathlib.suffix (name p)) ∈ IMAGE_EXTS.
Proof.
  unfold is_image. rewrite andb_true_iff, bool_decide_eq_true. done.
Qed.

Lemma elem_of_list_images dir fn :
  fn ∈ sync_captions.list_images dir ↔
  ∃ p, p ∈ dir ∧ name p = fn ∧ is_file p = true
       ∧ Py.lower (pathlib.suffix fn) ∈ IMAGE_EXTS.
Proof.
  unfold sync_captions.list_images.
  rewrite elem_of_sort_by_key, list_elem_of_fmap.
  split.
  - intros (p & -> & Hp). apply list_elem_of_filter in Hp as [Hi Hp].
    apply is_image_spec in Hi as [??]. eauto.
  - intros (p & Hp & <- & Hf & He). exists p. split; [done|].
    apply list_elem_of_filter. split; [|done]. by apply is_image_spec.
Qed.

Lemma list_images_perm dir :
  sync_captions.list_images dir ≡ₚ name <$> filter (λ p, is_image p = true) dir.
Proof. apply sort_by_key_perm. Qed.



(** C10: a regular file whose whole name is a dot followed by an
    allowed extension, in any letter case, has no suffix for [pathlib];
    it is not an image, and its name is in the output of neither
    [list_images], whatever else the directory holds. *)
Theorem C10_dotfile_excluded (nm : string) :
  Py.lower nm ∈ IMAGE_EXTS →
  pathlib.suffix nm = ""
  ∧ (∀ b, is_image (DirEntry nm b) = false)
  ∧ (∀ dir, nm ∉ sync_captions.list_images dir)
  ∧ (∀ dir, nm ∉ name <$> generate_album.list_images dir).
Proof.
  intros H. pose proof (dot_ext_suffix _ H) as Hs.
  assert (∀ dir, nm ∉ sync_captions.list_images dir) as Hd.
  { intros dir (p & _ & _ & _ & He)%elem_of_list_images.
    rewrite Hs in He. vm_compute in He.
    repeat (apply elem_of_cons in He as [He|He]; [discriminate|]).
    by apply elem_of_nil in He. }
  split; [done|]. split; [|split; [done|]].
  - intros b. unfold is_image. cbn [name]. rewrite Hs.
    by destruct b.
  - intros dir. rewrite list_images_agree. apply Hd.
Qed.

Lemma C10_witness :
  Py.lower ".PNG" ∈ IMAGE_EXTS
  ∧ ".PNG" ∉ sync_captions.list_images
               [DirEntry "b.png" true; DirEntry ".PNG" true; DirEntry ".jpg" true].
Proof.
  assert (Py.lower ".PNG" ∈ IMAGE_EXTS) as H.
  { apply (bool_decide_unpack _). exact I. }
  split; [exact H|].
  exact (proj1 (proj2 (proj2 (C10_dotfile_excluded ".PNG" H))) _).
Defined.

(** C6: the output of [list_images] holds exactly the names of the
    entries that are regular files and whose suffix, lower-cased, is
    one of the five extensions, each as often as the directory holds
    it.  A file [a.txt] is never listed, a name [b.jpg] that belongs to
    no regular file is never listed, and the files [a.JPG] and [a.Jpg]
    are listed. *)
Theorem C6_lists_exactly_the_image_files :
  (∀ dir, sync_captions.list_images dir
          ≡ₚ name <$> filter (λ p, is_image p = true) dir)
  ∧ (∀ p, is_image p = true ↔
          is_file p = true ∧ Py.lower (pathlib.suffix (name p)) ∈ IMAGE_EXTS)
  ∧ (∀ dir fn, fn ∈ sync_captions.list_images dir ↔
          ∃ p, p ∈ dir ∧ name p = fn ∧ is_file p = true
               ∧ Py.lower (pathlib.suffix fn) ∈ IMAGE_EXTS)
  ∧ (∀ dir, name <$> generate_album.list_images dir = sync_captions.list_images dir)
  ∧ (∀ dir, "a.txt" ∉ sync_captions.list_images dir)
  ∧ (∀ dir, DirEntry "b.jpg" true ∉ dir → "b.jpg" ∉ sync_captions.list_images dir)
  ∧ (∀ dir, DirEntry "a.JPG" true ∈ dir → "a.JPG" ∈ sync_captions.list_images dir)
  ∧ (∀ dir, DirEntry "a.Jpg" true ∈ dir → "a.Jpg" ∈ sync_captions.list_images dir)
  ∧ sync_captions.list_images
      [DirEntry "a.txt" true; DirEntry "b.jpg" false; DirEntry "a.Jpg" true;
       DirEntry "a.JPG" true; DirEntry "c.gif" true; DirEntry "notes" true]
    = ["a.Jpg"; "a.JPG"; "c.gif"].
Proof.
  split; [exact list_images_perm|].
  split; [exact is_image_spec|].
  split; [exact elem_of_list_images|].
  split; [exact list_images_agree|].
  split; [|split; [|split; [|split]]].
  - intros dir (p & _ & _ & _ & He)%elem_of_list_images.
    vm_compute in He.
    repeat (apply elem_of_cons in He as [He|He]; [discriminate|]).
    by apply elem_of_nil in He.
  - intros dir Hn (p & Hp & Hname & Hf & _)%elem_of_list_images.
    destruct p as [n f]; simpl in *; subst. done.
  - intros dir Hp. apply elem_of_list_images.
    eexists; split; [exact Hp|]. repeat split.
    apply (bool_decide_unpack _). exact I.
  - intros dir Hp. apply elem_of_list_images.
    eexists; split; [exact Hp|]. repeat split.
    apply (bool_decide_unpack _). exact I.
  - reflexivity.
Qed.

Lemma C6_witness :
  "a.JPG" ∈ sync_captions.list_images [DirEntry "z.png" true; DirEntry "a.JPG" true].
Proof.
  apply (proj1 (proj2 (proj2 (proj2 (proj2 (proj2 (proj2
          C6_lists_exactly_the_image_files))))))).
  apply (bool_decide_unpack _). exact I.
Defined.




(** ** Replacing one character is a character-wise substitution *)

Lemma subst_chars_app f s t :
  subst_chars f (s +:+ t) = subst_chars f s +:+ subst_chars f t.
Proof.
  induction s as [|c s IH]; [done|].
  rewrite str_app_cons. cbn [subst_chars]. by rewrite IH, str_app_assoc.
Qed.

Lemma subst_chars_ext f g s :
  (∀ c, f c = g c) → subst_chars f s = subst_chars g s.
Proof. intros E. induction s as [|c s IH]; [done|]. cbn. by rewrite E, IH. Qed.

Lemma subst_chars_compose f g s :
  subst_chars g (subst_chars f s) = subst_chars (λ c, subst_chars g (f c)) s.
Proof.
  induction s as [|c s IH]; [done|].
  cbn [subst_chars]. by rewrite subst_chars_app, IH.
Qed.

Lemma prefix_char c a s :
  String.prefix (String c "") (String a s) = Ascii.eqb a c.
Proof.
  cbn [String.prefix]. destruct (ascii_dec c a) as [->|Hne].
  - rewrite eqb_refl. by destruct s.
  - symmetry. apply Ascii.eqb_neq. congruence.
Qed.

Lemma replace_char c new s :
  Py.replace (String c "") new s
  = subst_chars (λ a, if Ascii.eqb a c then new else String a "") s.
Proof.
  unfold Py.replace.
  induction s as [|a s IH]; [done|].
  cbn [Py.replace_from subst_chars]. rewrite prefix_char.
  cbn [String.length Nat.sub].
  destruct (Ascii.eqb a c); by rewrite IH.
Qed.

Lemma escape_html_spec s :
  generate_album.escape_html s = subst_chars html_entity s.
Proof.
  unfold generate_album.escape_html, q.
  rewrite !(replace_char _ _), !subst_chars_compose.
  apply subst_chars_ext. by intros [[] [] [] [] [] [] [] []].
Qed.

Lemma escape_attr_spec s :
  generate_album.escape_attr s = subst_chars attr_entity s.
Proof.
  unfold generate_album.escape_attr.
  rewrite (replace_char _ _), escape_html_spec, subst_chars_compose.
  apply subst_chars_ext. by intros [[] [] [] [] [] [] [] []].
Qed.

Lemma any_char_app p s t :
  csv.any_char p (s +:+ t) = csv.any_char p s || csv.any_char p t.
Proof.
  induction s as [|c s IH]; [done|].
  rewrite str_app_cons. cbn [csv.any_char]. by rewrite IH, orb_assoc.
Qed.

Lemma any_char_subst p f s :
  (∀ c, csv.any_char p (f c) = false) → csv.any_char p (subst_chars f s) = false.
Proof.
  intros H. induction s as [|c s IH]; [done|].
  cbn [subst_chars]. by rewrite any_char_app, H, IH.
Qed.

Lemma escape_html_no_markup s :
  csv.any_char markup_char (generate_album.escape_html s) = false.
Proof.
  rewrite escape_html_spec. apply any_char_subst.
  by intros [[] [] [] [] [] [] [] []].
Qed.

Lemma escape_attr_no_markup s :
  csv.any_char attr_markup_char (generate_album.escape_attr s) = false.
Proof.
  rewrite escape_attr_spec. apply any_char_subst.
  by intros [[] [] [] [] [] [] [] []].
Qed.

Lemma any_char_weaken (p1 p2 : ascii → bool) s :
  (∀ c, p2 c = true → p1 c = true) →
  csv.any_char p1 s = false → csv.any_char p2 s = false.
Proof.
  intros Hp. induction s as [|c s IH]; [done|].
  cbn [csv.any_char]. intros [H1 H2]%orb_false_iff.
  rewrite (IH H2), orb_false_r.
  destruct (p2 c) eqn:E; [|done]. by rewrite (Hp _ E) in H1.
Qed.



(** ** Searching a text *)

Lemma contains_cons needle a s :
  contains needle (String a s) = startswith (String a s) needle || contains needle s.
Proof. reflexivity. Qed.


Lemma startswith_app s t : startswith (s +:+ t) s = true.
Proof.
  induction s as [|c s IH]; [by destruct t|].
  rewrite str_app_cons. cbn [startswith]. by rewrite eqb_refl, IH.
Qed.

Lemma contains_found needle pre post :
  contains needle (pre +:+ needle +:+ post) = true.
Proof.
  induction pre as [|c pre IH].
  - rewrite str_app_nil_l. destruct (needle +:+ post) eqn:E.
    + cbn [contains]. rewrite <-E. by rewrite startswith_app.
    + cbn [contains]. rewrite <-E. by rewrite startswith_app.
  - rewrite str_app_cons, contains_cons, IH. apply orb_true_r.
Qed.

(** ** The figure block *)

Lemma figure_block_layout filename title note :
  generate_album.figure_block filename title note
  = figure_layout
      (generate_album.escape_attr filename)
      (generate_album.escape_attr filename)
      (generate_album.escape_attr (pathlib.stem filename))
      (generate_album.escape_html
         (if Py.truthy title then title else generate_album.placeholder))
      (if Py.truthy note then Some (generate_album.escape_html note) else None).
Proof.
  unfold generate_album.figure_block, figure_layout, title_span, note_tag.
  destruct note as [|c note]; cbn [Py.truthy]; by rewrite ?str_app_assoc.
Qed.




(** C1, as the code has it: the values placed in the attributes [href],
    [src] and [alt] (the file name and its stem) have the five
    characters replaced by their entities; the texts of the title and
    note elements have the ampersand, the two angle brackets and the
    double quote replaced, and keep the apostrophe as it is.  No other
    character is changed, and what results holds none of the characters
    that would end the context it stands in. *)
Theorem C1_escaping_by_context :
  (∀ s, generate_album.escape_html s = subst_chars html_entity s)
  ∧ (∀ s, generate_album.escape_attr s = subst_chars attr_entity s)
  ∧ (∀ filename title note,
       generate_album.figure_block filename title note
       = figure_layout
           (subst_chars attr_entity filename)
           (subst_chars attr_entity filename)
           (subst_chars attr_entity (pathlib.stem filename))
           (subst_chars html_entity
              (if Py.truthy title then title else generate_album.placeholder))
           (if Py.truthy note then Some (subst_chars html_entity note) else None))
  ∧ (∀ s, csv.any_char markup_char (generate_album.escape_html s) = false)
  ∧ (∀ s, csv.any_char attr_markup_char (generate_album.escape_attr s) = false)
  ∧ (html_entity "&" = "&amp;" ∧ html_entity "<" = "&lt;" ∧ html_entity ">" = "&gt;"
     ∧ html_entity DQ = "&quot;" ∧ html_entity APOS = String APOS "")
  ∧ (attr_entity "&" = "&amp;" ∧ attr_entity "<" = "&lt;" ∧ attr_entity ">" = "&gt;"
     ∧ attr_entity DQ = "&quot;" ∧ attr_entity APOS = "&#39;")
  ∧ (∀ c, attr_markup_char c = false → Ascii.eqb c "&" = false →
          html_entity c = String c "" ∧ attr_entity c = String c "").
Proof.
  split; [exact escape_html_spec|].
  split; [exact escape_attr_spec|].
  split.
  { intros. rewrite figure_block_layout, !escape_attr_spec, escape_html_spec.
    destruct note; cbn [Py.truthy]; by rewrite ?escape_html_spec. }
  split; [exact escape_html_no_markup|].
  split; [exact escape_attr_no_markup|].
  split; [done|]. split; [done|].
  by intros [[] [] [] [] [] [] [] []].
Qed.

Lemma C1_witness :
  html_entity "a" = "a" ∧ attr_entity "a" = "a".
Proof.
  exact (proj2 (proj2 (proj2 (proj2 (proj2 (proj2 (proj2
           C1_escaping_by_context)))))) "a"%char eq_refl eq_refl).
Defined.

(** The title of the specification's example: in the title element the
    apostrophe stays as it is. *)
Lemma C1_counterexample :
  generate_album.escape_html ("<script>&" +:+ q +:+ "'")
  = "&lt;script&gt;&amp;&quot;'"
  ∧ contains (title_span "&lt;script&gt;&amp;&quot;'")
      (generate_album.figure_block "a.jpg" ("<script>&" +:+ q +:+ "'") "") = true
  ∧ contains "&#39;"
      (generate_album.figure_block "a.jpg" ("<script>&" +:+ q +:+ "'") "") = false.
Proof. by vm_compute. Qed.



(** ** The reader: lines and the single pass agree *)

Lemma parse_chars_app r a b :
  csv.parse_chars r (a +:+ b) = r' ← csv.parse_chars r a; csv.parse_chars r' b.
Proof.
  revert r. induction a as [|c a IH]; intros r; [done|].
  rewrite str_app_cons. cbn [csv.parse_chars].
  destruct (csv.parse_process_char r (csv.Char c)) as [r1|]; [|done].
  cbn. apply IH.
Qed.

Lemma parse_chars_snoc r a c :
  csv.parse_chars r (a +:+ String c "")
  = r' ← csv.parse_chars r a; csv.parse_process_char r' (csv.Char c).
Proof.
  rewrite parse_chars_app. destruct (csv.parse_chars r a) as [r1|]; [|done].
  cbn. by destruct (csv.parse_process_char r1 (csv.Char c)).
Qed.

Lemma records_cons r l ls :
  csv.records r (l :: ls)
  = r1 ← csv.parse_chars r l; ro ← end_of_line r1;
    (ro.2 ++.) <$> csv.records ro.1 ls.
Proof.
  cbn [csv.records]. unfold csv.parse_line, end_of_line.
  destruct (csv.parse_chars r l) as [r1|]; [|done]. cbn.
  destruct (csv.parse_process_char r1 csv.EOL) as [r2|]; [|done]. cbn.
  destruct (csv.state r2); cbn; try done;
    by destruct (csv.records _ ls).
Qed.

Lemma truthy_snoc a c : Py.truthy (a +:+ String c "") = true.
Proof. by destruct a. Qed.

Lemma lines_from_cons cur c s :
  lines_from cur (String c s)
  = if Ascii.eqb c LF then (cur +:+ String c "") :: lines_from "" s
    else if Ascii.eqb c CR then
      match s with
      | String c' s'' =>
          if Ascii.eqb c' LF then (cur +:+ crlf) :: lines_from "" s''
          else (cur +:+ String c "") :: lines_from "" s
      | EmptyString => [cur +:+ String c ""]
      end
    else lines_from (cur +:+ String c "") s.
Proof. reflexivity. Qed.

Lemma read_text_cons r inline c s :
  read_text r inline (String c s)
  = r1 ← csv.parse_process_char r (csv.Char c);
    if Ascii.eqb c LF then
      ro ← end_of_line r1; (ro.2 ++.) <$> read_text ro.1 false s
    else if Ascii.eqb c CR then
      match s with
      | String c' s'' =>
          if Ascii.eqb c' LF then
            r2 ← csv.parse_process_char r1 (csv.Char c');
            ro ← end_of_line r2; (ro.2 ++.) <$> read_text ro.1 false s''
          else
            ro ← end_of_line r1; (ro.2 ++.) <$> read_text ro.1 false s
      | EmptyString =>
          ro ← end_of_line r1; Some (ro.2 ++ csv.at_end ro.1)
      end
    else read_text r1 true s.
Proof. reflexivity. Qed.

Lemma records_lines_from n : ∀ s cur r0,
  (String.length s ≤ n)%nat →
  csv.records r0 (lines_from cur s)
  = r ← csv.parse_chars r0 cur; read_text r (Py.truthy cur) s.
Proof.
  induction n as [|n IH]; intros s cur r0 Hn.
  - destruct s; [|simpl in Hn; lia].
    destruct cur as [|a cur]; [done|].
    cbn [lines_from Py.truthy read_text]. rewrite records_cons.
    destruct (csv.parse_chars r0 (String a cur)) as [r1|]; [|done]. cbn.
    by destruct (end_of_line r1) as [[r2 out]|].
  - destruct s as [|c s]; [apply (IH ""%string); simpl; lia|].
    simpl in Hn. rewrite lines_from_cons.
    destruct (Ascii.eqb c LF) eqn:Elf.
    { rewrite records_cons, parse_chars_snoc.
      destruct (csv.parse_chars r0 cur) as [r|]; [|done]. cbn [mbind option_bind].
      rewrite read_text_cons, Elf.
      destruct (csv.parse_process_char r (csv.Char c)) as [r1|]; [|done].
      cbn [mbind option_bind].
      destruct (end_of_line r1) as [[r2 out]|]; [|done]. cbn [mbind option_bind fst snd].
      rewrite (IH s "" r2) by lia. done. }
    destruct (Ascii.eqb c CR) eqn:Ecr.
    { apply Ascii.eqb_eq in Ecr as ->.
      destruct s as [|c' s'].
      - rewrite records_cons, parse_chars_snoc.
        destruct (csv.parse_chars r0 cur) as [r|]; [|done]. cbn [mbind option_bind].
        rewrite read_text_cons. cbn [Ascii.eqb Bool.eqb CR LF].
        destruct (csv.parse_process_char r (csv.Char CR)) as [r1|]; [|done].
        cbn [mbind option_bind].
        by destruct (end_of_line r1) as [[r2 out]|].
      - destruct (Ascii.eqb c' LF) eqn:Elf'.
        + rewrite records_cons. unfold crlf.
          change (cur +:+ String CR (String LF ""))
            with (cur +:+ (String CR "" +:+ String LF "")).
          rewrite <-str_app_assoc, parse_chars_snoc, parse_chars_snoc.
          destruct (csv.parse_chars r0 cur) as [r|]; [|done]. cbn [mbind option_bind].
          rewrite read_text_cons, Elf, Elf'.
          change (Ascii.eqb CR CR) with true. cbn match.
          apply Ascii.eqb_eq in Elf' as ->.
          destruct (csv.parse_process_char r (csv.Char CR)) as [r1|]; [|done].
          cbn [mbind option_bind].
          destruct (csv.parse_process_char r1 (csv.Char LF)) as [r2|]; [|done].
          cbn [mbind option_bind].
          destruct (end_of_line r2) as [[r3 out]|]; [|done].
          cbn [mbind option_bind fst snd].
          simpl in Hn. rewrite (IH s' "" r3) by lia. done.
        + rewrite records_cons, parse_chars_snoc.
          destruct (csv.parse_chars r0 cur) as [r|]; [|done]. cbn [mbind option_bind].
          rewrite read_text_cons, Elf, Elf'.
          change (Ascii.eqb CR CR) with true. cbn match.
          destruct (csv.parse_process_char r (csv.Char CR)) as [r1|]; [|done].
          cbn [mbind option_bind].
          destruct (end_of_line r1) as [[r2 out]|]; [|done].
          cbn [mbind option_bind fst snd].
          rewrite (IH (String c' s') "" r2) by lia. done. }
    rewrite (IH s (cur +:+ String c "") r0) by lia.
    rewrite parse_chars_snoc, truthy_snoc.
    destruct (csv.parse_chars r0 cur) as [r|]; [|done]. cbn [mbind option_bind].
    rewrite read_text_cons, Elf, Ecr.
    by destruct (csv.parse_process_char r (csv.Char c)).
Qed.

Lemma reader_read_text s :
  csv.reader (readlines s) = read_text csv.parse_reset false s.
Proof.
  unfold csv.reader, readlines.
  by rewrite (records_lines_from (String.length s)).
Qed.

(** ** The reader never fails on the lines of a file

    [csv.Error] needs a character other than a line end right after a
    line end outside quotes, within one line; lines split at their
    ends have none. *)

Lemma process_char_ok r c :
  csv.state r ≠ csv.EAT_CRNL ∨ csv.is_newline c = true →
  ∃ r1, csv.parse_process_char r (csv.Char c) = Some r1
        ∧ (csv.is_newline c = false → csv.state r1 ≠ csv.EAT_CRNL).
Proof.
  intros H. unfold csv.parse_process_char, csv.start_field.
  destruct r as [st f fs]; cbn [csv.state] in *.
  destruct st, (csv.is_newline c) eqn:En, (Ascii.eqb c DQ), (Ascii.eqb c COMMA);
    cbn; try (eexists; split; [reflexivity|]; cbn; intros; congruence);
    destruct H; congruence.
Qed.

Lemma end_of_line_ok r :
  ∃ r' out, end_of_line r = Some (r', out) ∧ csv.state r' ≠ csv.EAT_CRNL.
Proof.
  unfold end_of_line, csv.parse_process_char, csv.start_field.
  destruct r as [st f fs]; cbn [csv.state].
  destruct st; cbn; do 2 eexists; (split; [reflexivity|]); cbn; congruence.
Qed.

Lemma newline_cases c :
  csv.is_newline c = (Ascii.eqb c LF || Ascii.eqb c CR).
Proof. reflexivity. Qed.

Lemma read_text_total n : ∀ s r inline,
  (String.length s ≤ n)%nat →
  csv.state r ≠ csv.EAT_CRNL →
  is_Some (read_text r inline s).
Proof.
  induction n as [|n IH]; intros s r inline Hn Hr.
  - destruct s; [|simpl in Hn; lia].
    cbn [read_text]. destruct inline; [|by eexists].
    destruct (end_of_line_ok r) as (r' & out & -> & _). by eexists.
  - destruct s as [|c s]; [apply (IH ""%string); [simpl; lia|done]|].
    simpl in Hn. rewrite read_text_cons.
    destruct (process_char_ok r c (or_introl Hr)) as (r1 & -> & H1).
    cbn [mbind option_bind]. rewrite newline_cases in H1.
    destruct (Ascii.eqb c LF) eqn:Elf.
    { destruct (end_of_line_ok r1) as (r2 & out & -> & H2).
      cbn [mbind option_bind fst snd].
      destruct (IH s r2 false ltac:(lia) H2) as [x ->]. by eexists. }
    destruct (Ascii.eqb c CR) eqn:Ecr; [|apply IH; [lia|by apply H1]].
    destruct s as [|c' s'].
    { destruct (end_of_line_ok r1) as (r2 & out & -> & H2). by eexists. }
    destruct (Ascii.eqb c' LF) eqn:Elf'.
    + destruct (process_char_ok r1 c') as (r2 & -> & _).
      { right. by rewrite newline_cases, Elf'. }
      cbn [mbind option_bind].
      destruct (end_of_line_ok r2) as (r3 & out & -> & H3).
      cbn [mbind option_bind fst snd]. simpl in Hn.
      destruct (IH s' r3 false ltac:(lia) H3) as [x ->]. by eexists.
    + destruct (end_of_line_ok r1) as (r2 & out & -> & H2).
      cbn [mbind option_bind fst snd].
      destruct (IH (String c' s') r2 false ltac:(lia) H2) as [x ->]. by eexists.
Qed.

Lemma reader_total s : is_Some (csv.reader (readlines s)).
Proof.
  rewrite reader_read_text.
  by apply (read_text_total (String.length s)).
Qed.

Lemma DictReader_total s : is_Some (csv.DictReader (readlines s)).
Proof.
  unfold csv.DictReader. destruct (reader_total s) as [rs ->].
  cbn. destruct rs; by eexists.
Qed.

Lemma read_existing_total file : is_Some (sync_captions.read_existing file).
Proof.
  destruct file as [bytes|]; [|by eexists].
  unfold sync_captions.read_existing.
  destruct (DictReader_total (decode_utf_8_sig bytes)) as [rows ->].
  by eexists.
Qed.

Lemma load_captions_read_existing file :
  generate_album.load_captions file = sync_captions.read_existing file.
Proof. reflexivity. Qed.

(** ** Reading back what the writer wrote *)

Lemma needs_quote_false c :
  csv.needs_quote c = false →
  Ascii.eqb c COMMA = false ∧ Ascii.eqb c DQ = false
  ∧ Ascii.eqb c CR = false ∧ Ascii.eqb c LF = false.
Proof.
  unfold csv.needs_quote. rewrite !orb_false_iff. tauto.
Qed.

Lemma fmap_nil_app (o : option (list (list string))) :
  (λ x, [] ++ x) <$> o = o.
Proof. by destruct o. Qed.

Lemma process_quoted_char c f fs :
  Ascii.eqb c DQ = false →
  csv.parse_process_char (csv.mkReader csv.IN_QUOTED_FIELD f fs) (csv.Char c)
  = Some (csv.mkReader csv.IN_QUOTED_FIELD (f +:+ String c "") fs).
Proof. intros H. unfold csv.parse_process_char. cbn [csv.state]. by rewrite H. Qed.

Lemma end_of_line_quoted f fs :
  end_of_line (csv.mkReader csv.IN_QUOTED_FIELD f fs)
  = Some (csv.mkReader csv.IN_QUOTED_FIELD f fs, []).
Proof. reflexivity. Qed.

(** Inside quotes every character but the quote is taken as it is,
    line ends included. *)
Lemma read_quoted_char c s f fs b :
  Ascii.eqb c DQ = false →
  read_text (csv.mkReader csv.IN_QUOTED_FIELD f fs) b (String c s)
  = read_text (csv.mkReader csv.IN_QUOTED_FIELD (f +:+ String c "") fs)
      (negb (csv.is_newline c)) s.
Proof.
  intros Hdq. rewrite read_text_cons, process_quoted_char by done.
  cbn [mbind option_bind]. rewrite newline_cases.
  destruct (Ascii.eqb c LF) eqn:Elf.
  { rewrite end_of_line_quoted. cbn [mbind option_bind fst snd orb negb].
    apply fmap_nil_app. }
  destruct (Ascii.eqb c CR) eqn:Ecr; [|done].
  cbn [orb negb].
  destruct s as [|c' s'].
  { by rewrite end_of_line_quoted. }
  destruct (Ascii.eqb c' LF) eqn:Elf'.
  - assert (Ascii.eqb c' DQ = false) as E.
    { by apply Ascii.eqb_eq in Elf' as ->. }
    rewrite process_quoted_char by done. cbn [mbind option_bind].
    rewrite end_of_line_quoted. cbn [mbind option_bind fst snd].
    rewrite read_text_cons, process_quoted_char by done.
    cbn [mbind option_bind]. rewrite Elf', end_of_line_quoted. done.
  - rewrite end_of_line_quoted. cbn [mbind option_bind fst snd].
    apply fmap_nil_app.
Qed.

Lemma read_quoted_body f0 : ∀ f fs b rest,
  read_text (csv.mkReader csv.IN_QUOTED_FIELD f fs) b
    (csv.double_quotes f0 +:+ String DQ rest)
  = read_text (csv.mkReader csv.QUOTE_IN_QUOTED_FIELD (f +:+ f0) fs) true rest.
Proof.
  induction f0 as [|c f0 IH]; intros f fs b rest.
  - rewrite str_app_nil_r. cbn [csv.double_quotes]. rewrite str_app_nil_l.
    rewrite read_text_cons. reflexivity.
  - cbn [csv.double_quotes]. destruct (Ascii.eqb c DQ) eqn:Edq.
    + apply Ascii.eqb_eq in Edq as ->.
      rewrite !str_app_cons, read_text_cons.
      change (read_text (csv.mkReader csv.QUOTE_IN_QUOTED_FIELD f fs) true
                (String DQ (csv.double_quotes f0 +:+ String DQ rest)) = 
              read_text (csv.mkReader csv.QUOTE_IN_QUOTED_FIELD (f +:+ String DQ f0) fs) true rest).
      rewrite read_text_cons.
      change (read_text (csv.mkReader csv.IN_QUOTED_FIELD (f +:+ String DQ "") fs) true
                (csv.double_quotes f0 +:+ String DQ rest) = 
              read_text (csv.mkReader csv.QUOTE_IN_QUOTED_FIELD (f +:+ String DQ f0) fs) true rest).
      rewrite IH, str_app_assoc. done.
    + rewrite str_app_cons, read_quoted_char by done.
      rewrite IH, str_app_assoc. done.
Qed.

(** Outside quotes the characters that need no quoting add up to the
    field. *)
Lemma read_plain_chars f0 : ∀ f fs b rest,
  csv.any_char csv.needs_quote f0 = false →
  read_text (csv.mkReader csv.IN_FIELD f fs) b (f0 +:+ rest)
  = read_text (csv.mkReader csv.IN_FIELD (f +:+ f0) fs) (Py.truthy f0 || b) rest.
Proof.
  induction f0 as [|c f0 IH]; intros f fs b rest H.
  - by rewrite str_app_nil_r.
  - cbn [csv.any_char] in H. apply orb_false_iff in H as [Hc H].
    apply needs_quote_false in Hc as (Hco & Hdq & Hcr & Hlf).
    rewrite str_app_cons, read_text_cons.
    unfold csv.parse_process_char. cbn [csv.state].
    rewrite newline_cases, Hlf, Hcr, Hco. cbn [orb mbind option_bind].
    unfold csv.parse_add_char. cbn [csv.state csv.field csv.fields].
    rewrite IH by done. rewrite str_app_assoc. cbn [Py.truthy].
    by rewrite orb_true_r.
Qed.

(** A field as the writer lays it out, read from the start of a field:
    where the reader stands when the field's last character is read. *)
Lemma read_field st f0 fs b rest :
  st = csv.START_RECORD ∨ st = csv.START_FIELD →
  read_text (csv.mkReader st "" fs) b (csv.join_append f0 +:+ rest)
  = if csv.any_char csv.needs_quote f0
    then read_text (csv.mkReader csv.QUOTE_IN_QUOTED_FIELD f0 fs) true rest
    else match f0 with
         | EmptyString => read_text (csv.mkReader st "" fs) b rest
         | String _ _ => read_text (csv.mkReader csv.IN_FIELD f0 fs) true rest
         end.
Proof.
  intros Hst. unfold csv.join_append.
  destruct (csv.any_char csv.needs_quote f0) eqn:Hq.
  - unfold q. rewrite !str_app_cons, str_app_nil_l, read_text_cons.
    assert (csv.parse_process_char (csv.mkReader st "" fs) (csv.Char DQ)
            = Some (csv.mkReader csv.IN_QUOTED_FIELD "" fs)) as ->.
    { by destruct Hst as [->| ->]. }
    cbn [mbind option_bind].
    change (Ascii.eqb DQ LF) with false. change (Ascii.eqb DQ CR) with false.
    cbn match. rewrite str_app_assoc, str_app_cons, str_app_nil_l.
    by rewrite read_quoted_body, str_app_nil_l.
  - destruct f0 as [|c f0]; [done|].
    cbn [csv.any_char] in Hq. apply orb_false_iff in Hq as [Hc Hq].
    apply needs_quote_false in Hc as (Hco & Hdq & Hcr & Hlf).
    rewrite str_app_cons, read_text_cons.
    assert (csv.parse_process_char (csv.mkReader st "" fs) (csv.Char c)
            = Some (csv.mkReader csv.IN_FIELD (String c "") fs)) as ->.
    { destruct Hst as [->| ->]; unfold csv.parse_process_char, csv.start_field;
        cbn [csv.state];
        by rewrite newline_cases, Hlf, Hcr, Hdq, Hco. }
    cbn [mbind option_bind]. rewrite Hlf, Hcr.
    by rewrite read_plain_chars, orb_true_r, str_app_cons, str_app_nil_l.
Qed.

Lemma read_field_comma st f0 fs b rest :
  st = csv.START_RECORD ∨ st = csv.START_FIELD →
  read_text (csv.mkReader st "" fs) b (csv.join_append f0 +:+ String COMMA rest)
  = read_text (csv.mkReader csv.START_FIELD "" (fs ++ [f0])) true rest.
Proof.
  intros Hst. rewrite read_field by done.
  destruct (csv.any_char csv.needs_quote f0); [done|].
  destruct f0; [|done]. by destruct Hst as [->| ->].
Qed.

Lemma read_field_crlf f0 fs b rest :
  read_text (csv.mkReader csv.START_FIELD "" fs) b
    (csv.join_append f0 +:+ crlf +:+ rest)
  = ((fs ++ [f0]) ::.) <$> read_text csv.parse_reset false rest.
Proof.
  rewrite read_field by auto. unfold crlf. rewrite str_app_cons, str_app_cons, str_app_nil_l.
  destruct (csv.any_char csv.needs_quote f0); [done|].
  by destruct f0.
Qed.

Lemma writerow3 a b c :
  csv.writerow [a; b; c]
  = csv.join_append a +:+ String COMMA (csv.join_append b +:+
      String COMMA (csv.join_append c +:+ crlf)).
Proof.
  unfold csv.writerow. cbn [fmap list_fmap Py.join].
  destruct (csv.join_append a) as [|x ja]; cbn.
  - by rewrite ?str_app_assoc.
  - rewrite !str_app_assoc. cbn. by rewrite !str_app_assoc.
Qed.

Lemma read_record3 a b c rest :
  read_text csv.parse_reset false (csv.writerow [a; b; c] +:+ rest)
  = ([a; b; c] ::.) <$> read_text csv.parse_reset false rest.
Proof.
  rewrite writerow3. unfold csv.parse_reset.
  rewrite str_app_assoc, str_app_cons, read_field_comma by auto.
  rewrite str_app_assoc, str_app_cons, read_field_comma by auto.
  rewrite str_app_assoc, read_field_crlf. done.
Qed.

Lemma read_rows rows :
  read_text csv.parse_reset false
    (csv.writerows (sync_captions.dict_to_list <$> rows))
  = Some (sync_captions.dict_to_list <$> rows).
Proof.
  induction rows as [|r rows IH]; [done|].
  rewrite fmap_cons. cbn [csv.writerows]. unfold sync_captions.dict_to_list at 1.
  rewrite read_record3, IH. done.
Qed.

Lemma decode_encode text : decode_utf_8_sig (encode_utf_8_sig text) = text.
Proof. by destruct text. Qed.

(** The records of the file that [write_csv] leaves: the header and the
    rows, value for value. *)
Lemma reader_write_csv rows :
  csv.reader (readlines (decode_utf_8_sig (sync_captions.write_csv rows)))
  = Some (sync_captions.fieldnames :: (sync_captions.dict_to_list <$> rows)).
Proof.
  unfold sync_captions.write_csv. rewrite decode_encode, reader_read_text.
  unfold sync_captions.fieldnames. rewrite read_record3, read_rows. done.
Qed.

(** ** What the reading loop makes of the rows written *)

Lemma row_dict_3 a b c :
  csv.row_dict ∅ sync_captions.fieldnames [a; b; c]
  = <["note" := Some c]> (<["title" := Some b]> (<["filename" := Some a]> ∅)).
Proof. reflexivity. Qed.

Lemma add_row_written data (r : sync_captions.row) :
  add_row data (csv.row_dict ∅ sync_captions.fieldnames (sync_captions.dict_to_list r))
  = if Py.truthy (Py.strip (sync_captions.filename r))
    then <[Py.strip (sync_captions.filename r) :=
             Caption (Py.strip (sync_captions.row_title r))
                     (Py.strip (sync_captions.row_note r))]> data
    else data.
Proof.
  unfold sync_captions.dict_to_list. rewrite row_dict_3.
  unfold add_row, get_or_empty.
  rewrite lookup_insert_ne, lookup_insert_ne, lookup_insert_eq by done.
  rewrite (lookup_insert_ne _ "note" "title"), lookup_insert_eq by done.
  by rewrite lookup_insert_eq.
Qed.

Lemma truthy_spec s : Py.truthy s = true ↔ s ≠ "".
Proof. destruct s; cbn; split; congruence. Qed.

Lemma foldl_add_row_written (rows : list sync_captions.row) : ∀ data,
  foldl add_row data
    (csv.row_dict ∅ sync_captions.fieldnames
       <$> (sync_captions.dict_to_list <$> rows))
  = foldl (λ m r, <[sync_captions.filename r :=
                     Caption (sync_captions.row_title r) (sync_captions.row_note r)]> m)
      data
      (filter (λ r, sync_captions.filename r ≠ "") (trim_row <$> rows)).
Proof.
  induction rows as [|r rows IH]; intros data; [done|].
  rewrite !fmap_cons. cbn [foldl]. rewrite add_row_written, IH.
  rewrite filter_cons. cbn [trim_row sync_captions.filename].
  destruct (decide (Py.strip (sync_captions.filename r) ≠ "")) as [Hne|He].
  - apply truthy_spec in Hne. by rewrite Hne.
  - apply dec_stable in He. by rewrite He.
Qed.

Lemma filter_nonempty_written (rows : list sync_captions.row) :
  filter (λ r, csv.nonempty r = true) (sync_captions.dict_to_list <$> rows)
  = sync_captions.dict_to_list <$> rows.
Proof.
  induction rows as [|r rows IH]; [done|].
  rewrite fmap_cons, filter_cons. cbn. by rewrite IH.
Qed.

Lemma read_existing_written (rows : list sync_captions.row) :
  sync_captions.read_existing (Some (sync_captions.write_csv rows))
  = Some (denoted (filter (λ r, sync_captions.filename r ≠ "") (trim_row <$> rows))).
Proof.
  unfold sync_captions.read_existing, csv.DictReader.
  rewrite reader_write_csv. cbn [mbind option_bind].
  rewrite filter_nonempty_written. by rewrite foldl_add_row_written.
Qed.





(** ** Trimming *)

Lemma lstrip_unfold s :
  Py.lstrip s
  = match Py.space_width s with
    | O => s
    | n => Py.lstrip (Py.drop n s)
    end.
Proof.
  destruct s as [|c1 [|c2 [|c3 s3]]]; cbn [Py.lstrip Py.space_width Py.drop];
    try done; destruct (Py.isspace1 c1); try done;
    destruct (Py.isspace2 c1 c2); try done;
    destruct (Py.isspace3 c1 c2 c3); done.
Qed.

Lemma space_width_length s : (Py.space_width s ≤ String.length s)%nat.
Proof.
  destruct s as [|c1 [|c2 [|c3 s3]]]; cbn [Py.space_width String.length];
    try lia; destruct (Py.isspace1 c1); try lia;
    destruct (Py.isspace2 c1 c2); try lia;
    destruct (Py.isspace3 c1 c2 c3); lia.
Qed.

Lemma space_width_app a w :
  Py.space_width a ≠ O → Py.space_width (a +:+ w) = Py.space_width a.
Proof.
  destruct a as [|c1 [|c2 [|c3 a3]]]; rewrite ?str_app_cons, ?str_app_nil_l;
    cbn [Py.space_width]; try done.
  - destruct (Py.isspace1 c1); [done|]. by destruct w.
  - destruct (Py.isspace1 c1); [done|].
    destruct (Py.isspace2 c1 c2); [done|]. by destruct w.
Qed.

Lemma drop_length n : ∀ s,
  (n ≤ String.length s)%nat → (String.length (Py.drop n s) = String.length s - n)%nat.
Proof.
  induction n as [|n IH]; intros [|c s] H; cbn in *; try lia. apply IH. lia.
Qed.

Lemma drop_app n : ∀ a w,
  (n ≤ String.length a)%nat → Py.drop n (a +:+ w) = Py.drop n a +:+ w.
Proof.
  induction n as [|n IH]; intros [|c a] w H; cbn [String.length] in H;
    try done; try lia.
  rewrite str_app_cons. cbn [Py.drop]. apply IH. lia.
Qed.

(** What is left of [lstrip] starts with no white space. *)
Lemma space_width_lstrip n : ∀ s,
  (String.length s ≤ n)%nat → Py.space_width (Py.lstrip s) = O.
Proof.
  induction n as [|n IH]; intros s H.
  - by destruct s; [|cbn in H; lia].
  - rewrite lstrip_unfold. destruct (Py.space_width s) as [|k] eqn:E; [done|].
    apply IH. pose proof (space_width_length s).
    rewrite drop_length by lia. lia.
Qed.

Lemma lstrip_fixed s : Py.space_width s = O → Py.lstrip s = s.
Proof. intros H. by rewrite lstrip_unfold, H. Qed.

(** White space in front of a text goes with the white space the text
    starts with. *)
Lemma lstrip_app_space n : ∀ a w,
  (String.length a ≤ n)%nat → Py.lstrip a = "" → Py.lstrip (a +:+ w) = Py.lstrip w.
Proof.
  induction n as [|n IH]; intros a w H Ha.
  - by destruct a; [|cbn in H; lia].
  - destruct a as [|c a]; [done|].
    rewrite lstrip_unfold in Ha.
    destruct (Py.space_width (String c a)) as [|k] eqn:E; [done|].
    rewrite lstrip_unfold, space_width_app, E by (by rewrite E).
    pose proof (space_width_length (String c a)).
    rewrite drop_app by lia. apply IH; [|done].
    rewrite drop_length by lia. lia.
Qed.

Lemma rstrip_split s : ∃ w, s = Py.rstrip s +:+ w ∧ Py.lstrip w = "".
Proof.
  induction s as [|c s (w & Hs & Hw)]; [by exists ""%string|].
  cbn [Py.rstrip]. destruct (Py.lstrip (String c s)) eqn:E.
  - by exists (String c s).
  - exists w. by rewrite str_app_cons, <-Hs.
Qed.

Lemma rstrip_idemp s : Py.rstrip (Py.rstrip s) = Py.rstrip s.
Proof.
  induction s as [|c s IH]; [done|].
  cbn [Py.rstrip]. destruct (Py.lstrip (String c s)) eqn:E; [done|].
  cbn [Py.rstrip]. rewrite IH.
  destruct (Py.lstrip (String c (Py.rstrip s))) eqn:E'; [|done].
  destruct (rstrip_split s) as (w & Hs & Hw).
  rewrite Hs, <-str_app_cons in E.
  rewrite (lstrip_app_space _ _ _ (le_n _) E'), Hw in E. done.
Qed.

Lemma space_width_rstrip s :
  Py.space_width s = O → Py.space_width (Py.rstrip s) = O.
Proof.
  intros H. destruct (rstrip_split s) as (w & Hs & _).
  destruct (Py.space_width (Py.rstrip s)) eqn:E; [done|].
  rewrite Hs, space_width_app in H by (by rewrite E). congruence.
Qed.

Lemma strip_idemp s : Py.strip (Py.strip s) = Py.strip s.
Proof.
  unfold Py.strip.
  rewrite (lstrip_fixed (Py.rstrip (Py.lstrip s))).
  - apply rstrip_idemp.
  - apply space_width_rstrip, (space_width_lstrip _ _ (le_n _)).
Qed.

Lemma strip_empty : Py.strip "" = "".
Proof. reflexivity. Qed.

Example strip_ideographic_space :
  Py.strip (IDEOGRAPHIC_SPACE +:+ "a b" +:+ IDEOGRAPHIC_SPACE +:+ nl) = "a b".
Proof. reflexivity. Qed.

(** ** What the reading loop lets into the store *)

Lemma add_row_clean data row : clean_store data → clean_store (add_row data row).
Proof.
  intros H. unfold add_row.
  destruct (Py.truthy _) eqn:E; [|done].
  apply map_Forall_insert_2; [|done].
  apply truthy_spec in E. cbn [title note]. by rewrite !strip_idemp.
Qed.

Lemma foldl_add_row_clean rows : ∀ data,
  clean_store data → clean_store (foldl add_row data rows).
Proof.
  induction rows as [|r rows IH]; intros data H; [done|].
  cbn [foldl]. by apply IH, add_row_clean.
Qed.

Lemma read_existing_clean file existing :
  sync_captions.read_existing file = Some existing → clean_store existing.
Proof.
  destruct file as [bytes|]; cbn [sync_captions.read_existing].
  - destruct (csv.DictReader _) as [rows|]; [|done]. cbn. intros [= <-].
    apply foldl_add_row_clean, map_Forall_empty.
  - intros [= <-]. apply map_Forall_empty.
Qed.

(** ** The loop of the synchronizer *)

Lemma merge_step_spec existing acc fn :
  sync_captions.merge_step existing acc fn
  = (acc.1 ++ [merged_row existing fn],
     (acc.2 + (if decide (fn ∈ dom existing) then 0 else 1))%nat).
Proof.
  unfold sync_captions.merge_step, merged_row.
  destruct (existing !! fn) as [c|] eqn:E; cbn.
  - rewrite decide_True by (apply elem_of_dom; eauto). f_equal. lia.
  - rewrite decide_False by (by apply not_elem_of_dom). f_equal. lia.
Qed.

Lemma merge_from existing images : ∀ acc,
  foldl (sync_captions.merge_step existing) acc images
  = (acc.1 ++ (merged_row existing <$> images),
     (acc.2 + length (filter (λ fn, fn ∉ dom existing) images))%nat).
Proof.
  induction images as [|fn images IH]; intros [rows n].
  - cbn. by rewrite app_nil_r, Nat.add_0_r.
  - cbn [foldl]. rewrite IH, merge_step_spec. cbn [fst snd].
    rewrite fmap_cons, <-app_assoc, filter_cons. cbn [app].
    f_equal. destruct (decide (fn ∈ dom existing)), (decide (fn ∉ dom existing));
      try done; cbn [length]; lia.
Qed.

Lemma merge_spec existing images :
  sync_captions.merge existing images
  = (merged_row existing <$> images,
     length (filter (λ fn, fn ∉ dom existing) images)).
Proof. unfold sync_captions.merge. by rewrite merge_from. Qed.


Lemma sync_main_spec ps entries csv html existing :
  sync_captions.read_existing csv = Some existing →
  sync_captions.main ps (mkFS (Directory entries) csv html)
  = (Finished
       ["[OK] " +:+ CAPTIONS_CSV ps;
        "  images: " +:+ pretty (length (sync_captions.list_images entries));
        "  new rows added (blank captions): "
          +:+ pretty (length (filter (λ fn, fn ∉ dom existing)
                                (sync_captions.list_images entries)));
        "  Tip: captions.csv を Excel で編集 → generate_album.py を実行"],
     mkFS (Directory entries)
       (Some (sync_captions.write_csv
                (merged_row existing <$> sync_captions.list_images entries)))
       html).
Proof.
  intros H. unfold sync_captions.main. cbn [images_dir captions_csv out_html].
  by rewrite H, merge_spec.
Qed.


(** The reconciliation example of the specification: the store has a
    title for [a.jpg] and a row for [c.jpg]; the directory holds
    [a.jpg] and [b.jpg]. *)
Example synchronizer_reconciles :
  let csv := sync_captions.write_csv
               [sync_captions.Row "a.jpg" "X" ""; sync_captions.Row "c.jpg" "Y" "Z"] in
  sync_captions.main (mkPaths "images" "captions.csv" "index.html")
    (mkFS (Directory [DirEntry "b.jpg" true; DirEntry "a.jpg" true]) (Some csv) None)
  = (Finished ["[OK] captions.csv"; "  images: 2";
               "  new rows added (blank captions): 1";
               "  Tip: captions.csv を Excel で編集 → generate_album.py を実行"],
     mkFS (Directory [DirEntry "b.jpg" true; DirEntry "a.jpg" true])
       (Some (sync_captions.write_csv
                [sync_captions.Row "a.jpg" "X" ""; sync_captions.Row "b.jpg" "" ""]))
       None).
Proof. by vm_compute. Qed.

(** C9: when the images directory does not exist, either script ends
    by [SystemExit] with a message that names the path of the directory,
    the exit status is not zero, and the file system is as it was: no
    caption store and no page is written. *)
Theorem C9_missing_images_directory ps now fs :
  images_dir fs = Absent →
  sync_captions.main ps fs
    = (SystemExit ("images ディレクトリが見つかりません: " +:+ IMAGES_DIR ps), fs)
  ∧ generate_album.main ps now fs
    = (SystemExit ("images ディレクトリが見つかりません: " +:+ IMAGES_DIR ps), fs)
  ∧ exit_status (sync_captions.main ps fs).1 ≠ 0
  ∧ exit_status (generate_album.main ps now fs).1 ≠ 0
  ∧ stderr (sync_captions.main ps fs).1
    = Some ("images ディレクトリが見つかりません: " +:+ IMAGES_DIR ps)
  ∧ stderr (generate_album.main ps now fs).1
    = Some ("images ディレクトリが見つかりません: " +:+ IMAGES_DIR ps)
  ∧ contains (IMAGES_DIR ps)
      ("images ディレクトリが見つかりません: " +:+ IMAGES_DIR ps) = true.
Proof.
  intros H. unfold sync_captions.main, generate_album.main. rewrite H.
  cbn [fst snd exit_status stderr]. repeat split; try done.
  rewrite <-(str_app_nil_r (IMAGES_DIR ps)) at 2.
  apply contains_found.
Qed.

Lemma C9_witness :
  sync_captions.main (mkPaths "/repo/album/images" "/repo/album/captions.csv"
                        "/repo/album/index.html")
    (mkFS Absent (Some "old") (Some "page"))
  = (SystemExit "images ディレクトリが見つかりません: /repo/album/images",
     mkFS Absent (Some "old") (Some "page")).
Proof.
  exact (proj1 (C9_missing_images_directory
                  (mkPaths "/repo/album/images" "/repo/album/captions.csv"
                     "/repo/album/index.html")
                  "" (mkFS Absent (Some "old") (Some "page")) eq_refl)).
Defined.

(** ** Looking a file name up in the mapping that rows denote *)

Lemma denoted_snoc L r :
  denoted (L ++ [r])
  = <[sync_captions.filename r :=
        Caption (sync_captions.row_title r) (sync_captions.row_note r)]> (denoted L).
Proof. unfold denoted. by rewrite foldl_app. Qed.

Lemma denoted_lookup_none L k :
  (∀ r, r ∈ L → sync_captions.filename r ≠ k) → denoted L !! k = None.
Proof.
  induction L as [|r L IH] using rev_ind; intros H; [done|].
  rewrite denoted_snoc, lookup_insert_ne.
  - apply IH. intros r' Hr'. apply H, elem_of_app. by left.
  - apply H, elem_of_app. right. by apply list_elem_of_singleton.
Qed.

Lemma denoted_lookup_some L k c :
  (∃ r, r ∈ L ∧ sync_captions.filename r = k) →
  (∀ r, r ∈ L → sync_captions.filename r = k →
        Caption (sync_captions.row_title r) (sync_captions.row_note r) = c) →
  denoted L !! k = Some c.
Proof.
  induction L as [|r L IH] using rev_ind; intros (r0 & Hr0 & Hk) H.
  { by apply elem_of_nil in Hr0. }
  rewrite denoted_snoc.
  destruct (decide (sync_captions.filename r = k)) as [E|E].
  - rewrite E, lookup_insert_eq. f_equal. apply H; [|done].
    apply elem_of_app. right. by apply list_elem_of_singleton.
  - rewrite lookup_insert_ne by done. apply IH.
    + exists r0. split; [|done].
      apply elem_of_app in Hr0 as [?|Hr0]; [done|].
      apply list_elem_of_singleton in Hr0 as ->. done.
    + intros r' Hr'. apply H, elem_of_app. by left.
Qed.

(** ** The second run of the synchronizer *)

Lemma merged_row_trimmed existing fn :
  clean_store existing → Py.strip fn = fn →
  trim_row (merged_row existing fn) = merged_row existing fn.
Proof.
  intros Hc Hfn. unfold trim_row, merged_row.
  cbn [sync_captions.filename sync_captions.row_title sync_captions.row_note].
  rewrite Hfn.
  destruct (existing !! fn) as [c|] eqn:E; cbn [from_option]; [|done].
  destruct (Hc _ _ E) as (_ & _ & -> & ->). done.
Qed.

Lemma elem_of_read_back (images : list string) existing r :
  r ∈ filter (λ r, sync_captions.filename r ≠ "")
        (trim_row <$> (merged_row existing <$> images)) ↔
  sync_captions.filename r ≠ ""
  ∧ ∃ fn, fn ∈ images ∧ r = trim_row (merged_row existing fn).
Proof.
  rewrite list_elem_of_filter, list_elem_of_fmap.
  split.
  - intros (Hne & r' & -> & (fn & -> & Hfn)%list_elem_of_fmap). eauto.
  - intros (Hne & fn & Hfn & ->). split; [done|].
    eexists. split; [done|]. apply list_elem_of_fmap. eauto.
Qed.

Lemma second_run_rows (images : list string) existing :
  clean_store existing →
  (∀ fn, fn ∈ images → fn ≠ "") →
  (∀ fn fn', fn ∈ images → fn' ∈ images → Py.strip fn' = fn → fn' = fn) →
  merged_row
    (denoted (filter (λ r, sync_captions.filename r ≠ "")
                (trim_row <$> (merged_row existing <$> images))))
    <$> images
  = merged_row existing <$> images.
Proof.
  intros Hc Hne H. apply list_fmap_ext. intros i fn Hi.
  apply list_elem_of_lookup_2 in Hi.
  destruct (decide (Py.strip fn = fn)) as [Hfn|Hfn].
  - unfold merged_row at 1.
    rewrite (denoted_lookup_some _ fn
               (Caption (sync_captions.row_title (merged_row existing fn))
                        (sync_captions.row_note (merged_row existing fn)))).
    + done.
    + exists (merged_row existing fn). split; [|done].
      apply elem_of_read_back. split; [by apply Hne|].
      exists fn. by rewrite merged_row_trimmed.
    + intros r (_ & fn' & Hfn' & ->)%elem_of_read_back Hk.
      cbn [trim_row merged_row sync_captions.filename] in Hk.
      apply (H fn fn' Hi Hfn') in Hk as ->.
      by rewrite merged_row_trimmed.
  - unfold merged_row at 1. rewrite denoted_lookup_none.
    + unfold merged_row. destruct (existing !! fn) as [c|] eqn:E; [|done].
      by destruct (Hc _ _ E) as (? & _).
    + intros r (_ & fn' & Hfn' & ->)%elem_of_read_back Hk.
      cbn [trim_row merged_row sync_captions.filename] in Hk.
      pose proof (H fn fn' Hi Hfn' Hk) as ->. done.
Qed.

Lemma list_images_nonempty entries fn :
  fn ∈ sync_captions.list_images entries → fn ≠ "".
Proof.
  intros (p & _ & _ & _ & He)%elem_of_list_images ->.
  vm_compute in He.
  repeat (apply elem_of_cons in He as [He|He]; [discriminate|]).
  by apply elem_of_nil in He.
Qed.

(** When the store that a run wrote is read back with the current file
    names as its keys, no file name is another one trimmed. *)
Lemma keys_match_no_collision (images : list string) existing :
  clean_store existing →
  dom existing = list_to_set images →
  ∀ fn fn', fn ∈ images → fn' ∈ images → Py.strip fn' = fn → fn' = fn.
Proof.
  intros Hc Hd fn fn' _ Hfn' <-.
  assert (fn' ∈ dom existing) as [c E]%elem_of_dom.
  { rewrite Hd. by apply elem_of_list_to_set. }
  by destruct (Hc _ _ E) as (-> & _).
Qed.

Lemma sync_twice ps entries csv html :
  (∀ fn fn', fn ∈ sync_captions.list_images entries →
             fn' ∈ sync_captions.list_images entries →
             Py.strip fn' = fn → fn' = fn) →
  (sync_captions.main ps
     (sync_captions.main ps (mkFS (Directory entries) csv html)).2).2
  = (sync_captions.main ps (mkFS (Directory entries) csv html)).2
  ∧ is_Some (captions_csv (sync_captions.main ps (mkFS (Directory entries) csv html)).2).
Proof.
  intros H.
  destruct (read_existing_total csv) as [existing He].
  rewrite (sync_main_spec _ _ _ _ _ He). cbn [snd captions_csv].
  split; [|by eexists].
  rewrite (sync_main_spec _ _ _ _ _ (read_existing_written _)). cbn [snd].
  rewrite second_run_rows; [done| |exact (list_images_nonempty entries)|done].
  by apply (read_existing_clean csv).
Qed.

(** The condition in the words of the specification: the key set of
    the store that the first run wrote, as it is read back, is the set
    of the image file names. *)
Lemma sync_twice_keys_match ps entries csv html :
  dom <$> sync_captions.read_existing
            (captions_csv (sync_captions.main ps (mkFS (Directory entries) csv html)).2)
  = Some (list_to_set (sync_captions.list_images entries)) →
  (sync_captions.main ps
     (sync_captions.main ps (mkFS (Directory entries) csv html)).2).2
  = (sync_captions.main ps (mkFS (Directory entries) csv html)).2.
Proof.
  intros H. apply sync_twice.
  destruct (sync_captions.read_existing
              (captions_csv (sync_captions.main ps (mkFS (Directory entries) csv html)).2))
    as [existing1|] eqn:E; [|done].
  injection H as H.
  eapply keys_match_no_collision; [|done]. by eapply read_existing_clean.
Qed.

(** C3, as the code has it: when no image file name is another image
    file name with white space trimmed off its ends, a second run of the
    synchronizer on the unchanged directory leaves the file system as
    the first run left it, the caption store byte for byte. *)
Theorem C3_second_run_is_fixed_point ps entries csv html :
  (∀ fn fn', fn ∈ sync_captions.list_images entries →
             fn' ∈ sync_captions.list_images entries →
             Py.strip fn' = fn → fn' = fn) →
  (sync_captions.main ps
     (sync_captions.main ps (mkFS (Directory entries) csv html)).2).2
  = (sync_captions.main ps (mkFS (Directory entries) csv html)).2
  ∧ is_Some (captions_csv (sync_captions.main ps (mkFS (Directory entries) csv html)).2).
Proof. apply sync_twice. Qed.

Lemma C3_witness :
  (sync_captions.main (mkPaths "images" "captions.csv" "index.html")
     (sync_captions.main (mkPaths "images" "captions.csv" "index.html")
        (mkFS (Directory [DirEntry "b.png" true; DirEntry "a.jpg" true])
           (Some (sync_captions.write_csv [sync_captions.Row "a.jpg" "X, y" ""]))
           None)).2).2
  = (sync_captions.main (mkPaths "images" "captions.csv" "index.html")
       (mkFS (Directory [DirEntry "b.png" true; DirEntry "a.jpg" true])
          (Some (sync_captions.write_csv [sync_captions.Row "a.jpg" "X, y" ""]))
          None)).2.
Proof.
  apply (C3_second_run_is_fixed_point (mkPaths "images" "captions.csv" "index.html")
           [DirEntry "b.png" true; DirEntry "a.jpg" true]).
  change (sync_captions.list_images [DirEntry "b.png" true; DirEntry "a.jpg" true])
    with ["a.jpg"; "b.png"].
  intros fn fn' H1 H2.
  apply elem_of_cons in H1 as [->|H1]; [|apply list_elem_of_singleton in H1 as ->];
  (apply elem_of_cons in H2 as [->|H2]; [|apply list_elem_of_singleton in H2 as ->]);
  vm_compute; congruence.
Defined.

(** Two image files, [a.jpg] and the same name after an ideographic
    space; the store holds a title for the first.  The first run keeps
    the title; read back, the blank row of the second file comes under
    the name of the first, and the second run writes the title away. *)
Lemma C3_counterexample :
  let ps := mkPaths "images" "captions.csv" "index.html" in
  let b := IDEOGRAPHIC_SPACE +:+ "a.jpg" in
  let fs0 := mkFS (Directory [DirEntry "a.jpg" true; DirEntry b true])
               (Some (sync_captions.write_csv [sync_captions.Row "a.jpg" "X" ""])) None in
  images_dir (sync_captions.main ps fs0).2 = images_dir fs0
  ∧ captions_csv (sync_captions.main ps fs0).2
    = Some (sync_captions.write_csv
              [sync_captions.Row "a.jpg" "X" ""; sync_captions.Row b "" ""])
  ∧ captions_csv (sync_captions.main ps (sync_captions.main ps fs0).2).2
    = Some (sync_captions.write_csv
              [sync_captions.Row "a.jpg" "" ""; sync_captions.Row b "" ""])
  ∧ (sync_captions.main ps (sync_captions.main ps fs0).2).2
    ≠ (sync_captions.main ps fs0).2.
Proof.
  cbv zeta. split; [done|]. split; [by vm_compute|]. split; [by vm_compute|].
  intros H. apply (f_equal captions_csv) in H. vm_compute in H. discriminate.
Qed.

(** ** Rows with missing or blank values *)











(** A file without a note column, with a blank title, a blank file
    name, an empty line and a record of one value. *)
Example read_existing_tolerant :
  sync_captions.read_existing
    (Some (BOM +:+ "filename,title" +:+ crlf +:+ " a.jpg ,  " +:+ crlf
             +:+ "  ,x" +:+ crlf +:+ crlf +:+ "b.jpg" +:+ nl
             +:+ "c.jpg, T "))
  = Some (<["c.jpg" := Caption "T" ""]>
            (<["b.jpg" := Caption "" ""]> (<["a.jpg" := Caption "" ""]> ∅))).
Proof. by vm_compute. Qed.

(** * Further properties *)

(** ** The last dot of a name *)


(** ** Escaping *)

(** The entities begin with an ampersand, which stands for no
    character but itself escaped: what follows an entity or a plain
    character is told apart from it. *)
Lemma html_entity_cases c :
  (c = "&"%char ∧ html_entity c = "&amp;") ∨ (c = "<"%char ∧ html_entity c = "&lt;")
  ∨ (c = ">"%char ∧ html_entity c = "&gt;") ∨ (c = DQ ∧ html_entity c = "&quot;")
  ∨ (c ≠ "&"%char ∧ html_entity c = String c "").
Proof.
  unfold html_entity.
  destruct (Ascii.eqb_spec c "&"); [by left|].
  destruct (Ascii.eqb_spec c "<"); [by right; left|].
  destruct (Ascii.eqb_spec c ">"); [by right; right; left|].
  destruct (Ascii.eqb_spec c DQ); [by right; right; right; left|].
  by right; right; right; right.
Qed.

Lemma attr_entity_cases c :
  (c = "&"%char ∧ attr_entity c = "&amp;") ∨ (c = "<"%char ∧ attr_entity c = "&lt;")
  ∨ (c = ">"%char ∧ attr_entity c = "&gt;") ∨ (c = DQ ∧ attr_entity c = "&quot;")
  ∨ (c = APOS ∧ attr_entity c = "&#39;")
  ∨ (c ≠ "&"%char ∧ attr_entity c = String c "").
Proof.
  unfold attr_entity.
  destruct (Ascii.eqb_spec c APOS) as [->|Hc]; [by right; right; right; right; left|].
  destruct (html_entity_cases c) as [?|[?|[?|[?|?]]]]; tauto.
Qed.

Lemma html_entity_first c d x y :
  html_entity c +:+ x = html_entity d +:+ y → c = d ∧ x = y.
Proof.
  destruct (html_entity_cases c) as [[-> ->]|[[-> ->]|[[-> ->]|[[-> ->]|[Hc ->]]]]],
           (html_entity_cases d) as [[-> ->]|[[-> ->]|[[-> ->]|[[-> ->]|[Hd ->]]]]];
    rewrite ?str_app_cons, ?str_app_nil_l; intros [=]; subst; done.
Qed.

Lemma attr_entity_first c d x y :
  attr_entity c +:+ x = attr_entity d +:+ y → c = d ∧ x = y.
Proof.
  destruct (attr_entity_cases c)
    as [[-> ->]|[[-> ->]|[[-> ->]|[[-> ->]|[[-> ->]|[Hc ->]]]]]],
    (attr_entity_cases d)
    as [[-> ->]|[[-> ->]|[[-> ->]|[[-> ->]|[[-> ->]|[Hd ->]]]]]];
    rewrite ?str_app_cons, ?str_app_nil_l; intros [=]; subst; done.
Qed.

Lemma subst_chars_inj f :
  (∀ c d x y, f c +:+ x = f d +:+ y → c = d ∧ x = y) →
  (∀ c, f c ≠ "") →
  ∀ s t, subst_chars f s = subst_chars f t → s = t.
Proof.
  intros Hf Hne. induction s as [|c s IH]; intros [|d t]; cbn [subst_chars]; try done.
  - intros H. symmetry in H. destruct (f d) eqn:E; [by apply Hne in E|done].
  - intros H. destruct (f c) eqn:E; [by apply Hne in E|done].
  - intros [-> H]%Hf. f_equal. by apply IH.
Qed.

(** X1: neither escaping function maps two texts to one: the text can
    be told from its escaped form. *)
Theorem X1_escaping_is_injective s t :
  (generate_album.escape_html s = generate_album.escape_html t → s = t)
  ∧ (generate_album.escape_attr s = generate_album.escape_attr t → s = t).
Proof.
  rewrite !escape_html_spec, !escape_attr_spec. split.
  - apply subst_chars_inj; [exact html_entity_first|].
    intros c. by destruct (html_entity_cases c) as [[_ ->]|[[_ ->]|[[_ ->]|[[_ ->]|[_ ->]]]]].
  - apply subst_chars_inj; [exact attr_entity_first|].
    intros c.
    by destruct (attr_entity_cases c)
      as [[_ ->]|[[_ ->]|[[_ ->]|[[_ ->]|[[_ ->]|[_ ->]]]]]].
Qed.

Lemma X1_witness : "&amp;" = "&amp;".
Proof.
  exact (proj1 (X1_escaping_is_injective "&amp;" "&amp;") eq_refl).
Defined.

(** ** Counting the places of a needle *)

Lemma occurrences_cons needle a s :
  occurrences needle (String a s)
  = ((if startswith (String a s) needle then 1 else 0) + occurrences needle s)%nat.
Proof. reflexivity. Qed.

Lemma startswith_long n : ∀ l rest,
  (String.length n ≤ String.length l)%nat →
  startswith (l +:+ rest) n = startswith l n.
Proof.
  induction n as [|b n IH]; intros [|a l] rest H; cbn [String.length] in H;
    try done; try lia.
  { by destruct rest. }
  rewrite str_app_cons. cbn [startswith]. rewrite IH by lia. done.
Qed.

Lemma startswith_short n : ∀ l,
  (String.length l < String.length n)%nat → startswith l n = false.
Proof.
  induction n as [|b n IH]; intros [|a l] H; cbn [String.length] in H;
    try done; try lia.
  cbn [startswith]. rewrite IH by lia. apply andb_false_r.
Qed.

Lemma startswith_across l : ∀ n rest,
  (String.length l < String.length n)%nat →
  startswith n l = false → startswith (l +:+ rest) n = false.
Proof.
  induction l as [|a l IH]; intros [|b n] rest H Hn; cbn [String.length] in H;
    try done; try lia.
  rewrite str_app_cons. cbn [startswith] in *.
  rewrite Ascii.eqb_sym in Hn. destruct (Ascii.eqb a b); [|done].
  cbn [andb] in *. apply IH; [lia|done].
Qed.

(** Behind a text that no occurrence leaves half way, the occurrences
    are those in the text and those behind it. *)
Lemma occurrences_app_closed c needle l rest :
  closed_for (String c needle) l = true →
  occurrences (String c needle) (l +:+ rest)
  = (occurrences (String c needle) l + occurrences (String c needle) rest)%nat.
Proof.
  induction l as [|a l IH]; intros H.
  - rewrite str_app_nil_l. by destruct rest.
  - cbn [closed_for] in H. apply andb_true_iff in H as [H1 H2].
    rewrite str_app_cons, !occurrences_cons, IH by done.
    rewrite <-str_app_cons.
    destruct (String.length (String a l) <? String.length (String c needle))%nat eqn:E.
    + apply Nat.ltb_lt in E. cbn [andb negb] in H1.
      apply negb_true_iff in H1.
      rewrite startswith_across, startswith_short by done. lia.
    + apply Nat.ltb_ge in E. rewrite startswith_long by done. lia.
Qed.

(** No occurrence begins in a text that lacks the first character. *)
Lemma occurrences_skip c needle x rest :
  csv.any_char (Ascii.eqb c) x = false →
  occurrences (String c needle) (x +:+ rest) = occurrences (String c needle) rest.
Proof.
  induction x as [|a x IH]; [done|].
  cbn [csv.any_char]. intros [Ha Hx]%orb_false_iff.
  rewrite str_app_cons, occurrences_cons. cbn [startswith].
  rewrite Ascii.eqb_sym in Ha. rewrite Ha. cbn [andb]. by apply IH.
Qed.

Lemma occurrences_none c needle x :
  csv.any_char (Ascii.eqb c) x = false → occurrences (String c needle) x = O.
Proof.
  intros H. rewrite <-(str_app_nil_r x), occurrences_skip by done. done.
Qed.

(** ** The text of a figure block, piece by piece *)

Lemma figure_layout_pieces href src alt title_text note_text :
  figure_layout href src alt title_text note_text
  = figure_text_1 +:+ href +:+ figure_text_2 +:+ src +:+ figure_text_3 +:+ alt
    +:+ figure_text_4 +:+ title_text
    +:+ match note_text with
        | Some text => figure_text_note +:+ text +:+ figure_text_end
        | None => figure_text_end
        end.
Proof.
  unfold figure_layout, title_span, note_tag, figure_text_1, figure_text_2,
    figure_text_3, figure_text_4, figure_text_note, figure_text_end.
  destruct note_text; by rewrite ?str_app_assoc.
Qed.

(** The occurrences of a needle that begins with a character absent
    from all values are those of the fixed text. *)
Lemma occurrences_in_layout c needle href src alt title_text note_text rest :
  csv.any_char (Ascii.eqb c) href = false →
  csv.any_char (Ascii.eqb c) src = false →
  csv.any_char (Ascii.eqb c) alt = false →
  csv.any_char (Ascii.eqb c) title_text = false →
  (∀ text, note_text = Some text → csv.any_char (Ascii.eqb c) text = false) →
  closed_for (String c needle) figure_text_1 = true →
  closed_for (String c needle) figure_text_2 = true →
  closed_for (String c needle) figure_text_3 = true →
  closed_for (String c needle) figure_text_4 = true →
  closed_for (String c needle) figure_text_note = true →
  closed_for (String c needle) figure_text_end = true →
  occurrences (String c needle)
    (figure_layout href src alt title_text note_text +:+ rest)
  = (occurrences (String c needle) figure_text_1
     + occurrences (String c needle) figure_text_2
     + occurrences (String c needle) figure_text_3
     + occurrences (String c needle) figure_text_4
     + match note_text with
       | Some _ => occurrences (String c needle) figure_text_note
       | None => 0
       end
     + occurrences (String c needle) figure_text_end
     + occurrences (String c needle) rest)%nat.
Proof.
  intros H1 H2 H3 H4 H5 C1 C2 C3 C4 C5 C6.
  rewrite figure_layout_pieces, !str_app_assoc.
  rewrite (occurrences_app_closed _ _ figure_text_1) by done.
  rewrite (occurrences_skip _ _ href) by done.
  rewrite (occurrences_app_closed _ _ figure_text_2) by done.
  rewrite (occurrences_skip _ _ src) by done.
  rewrite (occurrences_app_closed _ _ figure_text_3) by done.
  rewrite (occurrences_skip _ _ alt) by done.
  rewrite (occurrences_app_closed _ _ figure_text_4) by done.
  rewrite (occurrences_skip _ _ title_text) by done.
  destruct note_text as [text|].
  - rewrite !str_app_assoc.
    rewrite (occurrences_app_closed _ _ figure_text_note) by done.
    rewrite (occurrences_skip _ _ text) by eauto.
    rewrite (occurrences_app_closed _ _ figure_text_end) by done. lia.
  - rewrite (occurrences_app_closed _ _ figure_text_end) by done. lia.
Qed.

Lemma escaped_lacks c s :
  markup_char c = true →
  csv.any_char (Ascii.eqb c) (generate_album.escape_html s) = false
  ∧ csv.any_char (Ascii.eqb c) (generate_album.escape_attr s) = false.
Proof.
  intros Hc. split.
  - apply (any_char_weaken markup_char); [|apply escape_html_no_markup].
    by intros a <-%Ascii.eqb_eq.
  - apply (any_char_weaken attr_markup_char); [|apply escape_attr_no_markup].
    intros a <-%Ascii.eqb_eq. unfold attr_markup_char. by rewrite Hc.
Qed.

Lemma occurrences_in_block c needle filename title note rest :
  markup_char c = true →
  closed_for (String c needle) figure_text_1 = true →
  closed_for (String c needle) figure_text_2 = true →
  closed_for (String c needle) figure_text_3 = true →
  closed_for (String c needle) figure_text_4 = true →
  closed_for (String c needle) figure_text_note = true →
  closed_for (String c needle) figure_text_end = true →
  occurrences (String c needle)
    (generate_album.figure_block filename title note +:+ rest)
  = (occurrences (String c needle) figure_text_1
     + occurrences (String c needle) figure_text_2
     + occurrences (String c needle) figure_text_3
     + occurrences (String c needle) figure_text_4
     + (if Py.truthy note then occurrences (String c needle) figure_text_note else 0)
     + occurrences (String c needle) figure_text_end
     + occurrences (String c needle) rest)%nat.
Proof.
  intros Hc C1 C2 C3 C4 C5 C6.
  rewrite figure_block_layout, occurrences_in_layout;
    try done; try apply (escaped_lacks _ _ Hc).
  - by destruct (Py.truthy note).
  - intros text. destruct (Py.truthy note); [|done].
    intros [= <-]. apply (escaped_lacks _ _ Hc).
Qed.

(** X2: whatever the file name, the title and the note are, a figure
    block has nine opening and nine closing angle brackets and twelve
    double quotes without a note, eleven of each bracket and fourteen
    double quotes with one: no value adds a tag or ends an attribute. *)
Theorem X2_values_add_no_markup filename title note :
  occurrences "<" (generate_album.figure_block filename title note)
  = (if Py.truthy note then 11 else 9)%nat
  ∧ occurrences ">" (generate_album.figure_block filename title note)
    = (if Py.truthy note then 11 else 9)%nat
  ∧ occurrences q (generate_album.figure_block filename title note)
    = (if Py.truthy note then 14 else 12)%nat.
Proof.
  rewrite <-(str_app_nil_r (generate_album.figure_block filename title note)).
  unfold q.
  rewrite !occurrences_in_block by reflexivity.
  by destruct (Py.truthy note).
Qed.

(** ** The page around its two values *)



(** ** White space is made of its bytes *)









(** ** The figures in the page *)










(** ** The store that a run leaves *)







(** X4: in the mapping that [read_existing] and [load_captions] make
    of a file, every key is a non-empty file name without white space
    at its ends, and every title and note is without white space at its
    ends. *)
Theorem X4_loaded_store_is_trimmed file store k c :
  sync_captions.read_existing file = Some store →
  store !! k = Some c →
  generate_album.load_captions file = Some store
  ∧ k ≠ "" ∧ Py.strip k = k
  ∧ Py.strip (title c) = title c ∧ Py.strip (note c) = note c.
Proof.
  intros Hf Hk. split; [by rewrite load_captions_read_existing|].
  destruct (read_existing_clean _ _ Hf _ _ Hk) as (? & ? & ? & ?). done.
Qed.

Lemma X4_witness :
  generate_album.load_captions
    (Some (BOM +:+ "filename,title" +:+ crlf +:+ " a.jpg , T " +:+ crlf))
  = Some (<["a.jpg" := Caption "T" ""]> ∅)
  ∧ "a.jpg" ≠ "" ∧ Py.strip "a.jpg" = "a.jpg"
  ∧ Py.strip (title (Caption "T" "")) = title (Caption "T" "")
  ∧ Py.strip (note (Caption "T" "")) = note (Caption "T" "").
Proof.
  apply (X4_loaded_store_is_trimmed
           (Some (BOM +:+ "filename,title" +:+ crlf +:+ " a.jpg , T " +:+ crlf))
           (<["a.jpg" := Caption "T" ""]> ∅) "a.jpg" (Caption "T" "")).
  - vm_compute. reflexivity.
  - vm_compute. reflexivity.
Defined.



(** ** Captions that a run keeps *)


